(** * Task manager: countdown timer and task store

    A shallow embedding of [src/pages/Index.tsx]: the [useTimer] hook
    (start, reset, the interval callback and [formatTime]), the task form
    ([TaskForm.handleSubmit]) and its cells while it is on the page, the
    list handlers of [Index] (add, save edited, delete, toggle), the search
    effect, the load effect and the save effect.

    Conventions.
    - A JavaScript string is a [string]; each character is one code unit
      below 256.  [trim] and [toLowerCase] follow ECMAScript on that range.
    - Integers that the timer handles are [Z].  The code's numbers are
      doubles, which hold the integers below [2^53] exactly; what is stated
      of [formatTime] for all inputs of a range stays inside that range.
    - React state is threaded explicitly: a handler is a function from the
      state it closes over to the state after its setters have run.
    - What the environment supplies ([uuidv4()], [new Date().toISOString()],
      the content of [localStorage]) is an argument of the function that
      reads it. *)

From Stdlib Require Import ZArith Lia Bool Ascii String List.
From stdpp Require Import base tactics option list strings gmap pretty.

Set Warnings "-register-all".

Local Open Scope string_scope.
Local Open Scope Z_scope.

(** ** The countdown timer ([useTimer]) *)

Module Timer.

(** The hook's state together with the part of [window] it talks to.
    [intervals] lists the handles that [setInterval] has handed out and that
    have not been cleared; handles are positive integers, so a stored handle
    is truthy exactly when [timerRef.current] is not [null]. *)
Record state := mk {
  timeRemaining : Z;
  isTimeUp : bool;
  timerRef : option positive;
  intervals : list positive;
  nextHandle : positive
}.

#[global] Instance state_eq_dec : EqDecision state.
Proof. solve_decision. Defined.

(** [useState(initialTime)], [useState(false)], [useRef(null)]. *)
Definition init (initialTime : Z) : state :=
  {| timeRemaining := initialTime; isTimeUp := false; timerRef := None;
     intervals := []; nextHandle := 1%positive |}.

(** [window.clearInterval(h)]; clearing [null] or a dead handle does nothing. *)
Definition clearInterval (h : option positive) (active : list positive)
  : list positive :=
  match h with
  | Some i => filter (λ j, j ≠ i) active
  | None => active
  end.

(** [startTimer]. *)
Definition startTimer (s : state) : state :=
  match timerRef s with
  | Some _ => s
  | None =>
      let h := nextHandle s in
      {| timeRemaining := timeRemaining s;
         isTimeUp := false;
         timerRef := Some h;
         intervals := h :: intervals s;
         nextHandle := Pos.succ h |}
  end.

(** The callback given to [setInterval]: the updater of [setTimeRemaining]
    together with what it does on the way. *)
Definition tick (s : state) : state :=
  if bool_decide (timeRemaining s ≤ 1) then
    {| timeRemaining := 0;
       isTimeUp := true;
       timerRef := timerRef s;
       intervals := clearInterval (timerRef s) (intervals s);
       nextHandle := nextHandle s |}
  else
    {| timeRemaining := timeRemaining s - 1;
       isTimeUp := isTimeUp s;
       timerRef := timerRef s;
       intervals := intervals s;
       nextHandle := nextHandle s |}.

(** [resetTimer], for the [initialTime] the hook was created with. *)
Definition resetTimer (initialTime : Z) (s : state) : state :=
  {| timeRemaining := initialTime;
     isTimeUp := false;
     timerRef := None;
     intervals := clearInterval (timerRef s) (intervals s);
     nextHandle := nextHandle s |}.

(** The browser fires interval [h]: its callback runs if [h] is still
    active, and nothing happens otherwise. *)
Definition fire (h : positive) (s : state) : state :=
  if bool_decide (h ∈ intervals s) then tick s else s.

(** One second of wall-clock time: every active interval fires once, the
    oldest first (new handles are put in front of [intervals]); an interval
    that an earlier callback of the same second has cleared does not. *)
Definition second (s : state) : state :=
  foldr fire s (intervals s).

(** The countdown is running when some interval is active. *)
Definition running (s : state) : bool :=
  bool_decide (intervals s ≠ []).

(** What can happen to the hook between two renders. *)
Inductive event := Start | Reset | Second.

Definition step (initialTime : Z) (e : event) (s : state) : state :=
  match e with
  | Start => startTimer s
  | Reset => resetTimer initialTime s
  | Second => second s
  end.

Definition run (initialTime : Z) (es : list event) (s : state) : state :=
  foldl (λ s e, step initialTime e s) s es.

(** States the hook can be in. *)
Inductive reachable (initialTime : Z) : state → Prop :=
  | reachable_init : reachable initialTime (init initialTime)
  | reachable_step e s :
      reachable initialTime s → reachable initialTime (step initialTime e s).

(** [n] seconds go by. *)
Definition seconds (n : nat) (s : state) : state := Nat.iter n second s.

(** The shape of every state the hook can be in: no countdown was started
    since creation or the last reset; or one is running; or it ran out. *)
Definition timer_inv (s : state) : Prop :=
  match timerRef s with
  | None => intervals s = [] ∧ isTimeUp s = false
  | Some h =>
      (intervals s = [h] ∧ isTimeUp s = false) ∨
      (intervals s = [] ∧ isTimeUp s = true ∧ timeRemaining s = 0)
  end.

(** The same shape with the values of [timeRemaining], for a hook created
    with the initial time [n]. *)
Definition countdown_inv (n : Z) (s : state) : Prop :=
  match timerRef s with
  | None => intervals s = [] ∧ isTimeUp s = false ∧ timeRemaining s = n
  | Some h =>
      (intervals s = [h] ∧ isTimeUp s = false ∧ 1 ≤ timeRemaining s ≤ n) ∨
      (intervals s = [] ∧ isTimeUp s = true ∧ timeRemaining s = 0)
  end.

(** The cleanup of the hook's effect, run when the component unmounts:
    the stored handle, if any, is cleared; the ref keeps it. *)
Definition cleanup (s : state) : state :=
  {| timeRemaining := timeRemaining s;
     isTimeUp := isTimeUp s;
     timerRef := timerRef s;
     intervals := clearInterval (timerRef s) (intervals s);
     nextHandle := nextHandle s |}.

(** The application creates the hook with [useTimer(3600)]. *)
Definition initialTime : Z := 3600.

(** The state after expiry: the test was started and 3600 seconds passed. *)
Definition expired_state : state := seconds 3600 (startTimer (init initialTime)).

End Timer.

(** ** The string built-ins the code calls *)

Module Js.

(** The code units below 256 that ECMAScript counts as white space or as a
    line terminator: TAB, LF, VT, FF, CR, SP and NBSP. *)
Definition is_white_space (c : ascii) : bool :=
  let n := N_of_ascii c in
  ((9 <=? n) && (n <=? 13) || (n =? 32) || (n =? 160))%N.

(** [String.prototype.trimStart]. *)
Fixpoint trimStart (s : string) : string :=
  match s with
  | EmptyString => EmptyString
  | String c r => if is_white_space c then trimStart r else s
  end.

(** [String.prototype.trimEnd]. *)
Fixpoint trimEnd (s : string) : string :=
  match s with
  | EmptyString => EmptyString
  | String c r =>
      match trimEnd r with
      | EmptyString => if is_white_space c then EmptyString else String c EmptyString
      | r' => String c r'
      end
  end.

(** [String.prototype.trim]. *)
Definition trim (s : string) : string := trimEnd (trimStart s).

(** A string is truthy unless it is empty. *)
Definition truthy (s : string) : bool := negb (bool_decide (s = "")).

(** [a || b] on strings. *)
Definition or_else (a b : string) : string := if truthy a then a else b.

(** Lower case of one code unit: A-Z and the upper-case letters of the
    Latin-1 supplement (192-222 without the multiplication sign 215). *)
Definition toLowerCase_unit (c : ascii) : ascii :=
  let n := N_of_ascii c in
  if ((65 <=? n) && (n <=? 90) || (192 <=? n) && (n <=? 222) && negb (n =? 215))%N
  then ascii_of_N (n + 32) else c.

(** [String.prototype.toLowerCase]. *)
Fixpoint toLowerCase (s : string) : string :=
  match s with
  | EmptyString => EmptyString
  | String c r => String (toLowerCase_unit c) (toLowerCase r)
  end.

(** [s.includes(q)]: [q] occurs in [s] at some position. *)
Fixpoint includes (s q : string) : bool :=
  String.prefix q s ||
  match s with
  | EmptyString => false
  | String _ r => includes r q
  end.

(** [n] code units of [filler] repeated over and over. *)
Fixpoint repeat_to (n : nat) (filler cur : string) : string :=
  match n with
  | O => EmptyString
  | S n' =>
      match cur with
      | String c r => String c (repeat_to n' filler r)
      | EmptyString =>
          match filler with
          | String c r => String c (repeat_to n' filler r)
          | EmptyString => EmptyString
          end
      end
  end.

(** [s.padStart(targetLength, padString)]. *)
Definition padStart (s : string) (targetLength : nat) (padString : string)
  : string :=
  let len := String.length s in
  if bool_decide (targetLength ≤ len)%nat || bool_decide (padString = "") then s
  else repeat_to (targetLength - len) padString padString +:+ s.

(** [String(n)] for an integer [n] with [|n| < 10^21]: its decimal numeral.
    From [10^21] on the code's [String] writes the number with an exponent
    (["1e+21"]), which this function does not do: it stands for the code
    below that bound only. *)
Definition String_of (n : Z) : string := pretty n.

(** In the specification's words: a string that is empty or consists of
    white space only. *)
Definition whitespace_only (s : string) : Prop :=
  ∀ c, c ∈ list_ascii_of_string s → is_white_space c = true.








End Js.

(** [cn]: [classes.filter(Boolean).join(' ')].  An argument is a string or,
    as [None], one of the values [undefined], [null] and [false]. *)
Definition Boolean (class : option string) : bool :=
  match class with
  | Some s => Js.truthy s
  | None => false
  end.

Fixpoint join (separator : string) (parts : list string) : string :=
  match parts with
  | [] => ""
  | [s] => s
  | s :: rest => s +:+ separator +:+ join separator rest
  end.

Definition cn (classes : list (option string)) : string :=
  join " " (omap (λ class, if Boolean class then class else None) classes).

(** [formatTime] of [useTimer], for a number of seconds that is an integer
    a double holds exactly ([|seconds| < 2^53]): there [seconds / 60] is
    apart from the next whole number by [1/60] or more unless it is one,
    which is more than the rounding of the division, so [Math.floor] gives
    the integer quotient; [%] is exact, and the minutes are far below
    [10^21].  Outside that range the code computes on rounded values and
    this function is not the code's. *)
Definition formatTime (seconds : Z) : string :=
  let minutes := seconds `div` 60 in
  let remainingSeconds := seconds `rem` 60 in
  let formattedMinutes := Js.padStart (Js.String_of minutes) 2 "0" in
  let formattedSeconds := Js.padStart (Js.String_of remainingSeconds) 2 "0" in
  formattedMinutes +:+ ":" +:+ formattedSeconds.

(** The format [MM:SS] in the specification's words: two decimal digits
    for the minutes, a colon, two decimal digits for the seconds. *)
Definition digit_char (d : Z) : ascii := ascii_of_N (48 + Z.to_N d).

Definition two_digit (n : Z) (text : string) : Prop :=
  ∃ a b : Z, 0 ≤ a ≤ 9 ∧ 0 ≤ b ≤ 9 ∧ n = 10 * a + b ∧
    text = String (digit_char a) (String (digit_char b) "").

Definition MMSS (seconds : Z) (text : string) : Prop :=
  ∃ mm ss, two_digit (seconds `div` 60) mm ∧ two_digit (seconds `mod` 60) ss ∧
    text = mm +:+ ":" +:+ ss.

(** ** The task store ([Index]) and the task form ([TaskForm]) *)

Module Store.

Inductive Priority := high | medium | low.

#[global] Instance Priority_eq_dec : EqDecision Priority.
Proof. solve_decision. Defined.

Record Task := mkTask {
  id : string;
  title : string;
  description : option string;
  priority : Priority;
  completed : bool;
  dueDate : option string;
  createdAt : string
}.

#[global] Instance Task_eq_dec : EqDecision Task.
Proof. solve_decision. Defined.

(** The state of [Index] that the handlers read and write. *)
Record Index := mkIndex {
  tasks : list Task;
  showForm : bool;
  editingTask : option Task;
  testStarted : bool;
  searchQuery : string
}.

(** The fields the user types into [TaskForm]. *)
Record Fields := mkFields {
  f_title : string;
  f_description : string;
  f_priority : Priority;
  f_dueDate : string
}.

(** The initial values of the form's [useState] calls. *)
Definition initialFields (initialTask : option Task) : Fields :=
  {| f_title := match initialTask with Some t => title t | None => "" end;
     f_description :=
       match initialTask with
       | Some t => default "" (description t)
       | None => ""
       end;
     f_priority := match initialTask with Some t => priority t | None => medium end;
     f_dueDate :=
       match initialTask with
       | Some t =>
           match dueDate t with
           | Some d => if Js.truthy d then String.substring 0 10 d else ""
           | None => ""
           end
       | None => ""
       end |}.

(** What [handleSubmit] does: either [setErrors(newErrors)] and return, or
    [onSave(newTask)] followed by [onCancel()]. *)
Inductive submitted :=
  | SetErrors (newErrors : gmap string string)
  | OnSave (newTask : Task).

(** The [newTask] that [handleSubmit] builds; [uuid] is what [uuidv4()]
    returns and [now] what [new Date().toISOString()] returns, were they
    called. *)
Definition newTask (f : Fields) (initialTask : option Task)
    (uuid now : string) : Task :=
  {| id := Js.or_else (from_option id "" initialTask) uuid;
     title := f_title f;
     description := Some (f_description f);
     priority := f_priority f;
     completed := from_option completed false initialTask || false;
     dueDate := if Js.truthy (f_dueDate f) then Some (f_dueDate f) else None;
     createdAt := Js.or_else (from_option createdAt "" initialTask) now |}.

(** [TaskForm.handleSubmit]. *)
Definition handleSubmit (f : Fields) (initialTask : option Task)
    (uuid now : string) : submitted :=
  let newErrors : gmap string string :=
    if negb (Js.truthy (Js.trim (f_title f)))
    then <["title" := "Title is required."]> ∅ else ∅ in
  if bool_decide (0 < size newErrors)%nat then SetErrors newErrors
  else OnSave (newTask f initialTask uuid now).

Definition handleStartTest (st : Index) : Index :=
  {| tasks := tasks st; showForm := showForm st; editingTask := editingTask st;
     testStarted := true; searchQuery := searchQuery st |}.

Definition handleResetTest (st : Index) : Index :=
  {| tasks := []; showForm := false; editingTask := editingTask st;
     testStarted := false; searchQuery := searchQuery st |}.

Definition handleAddTask (newTask : Task) (st : Index) : Index :=
  {| tasks := newTask :: tasks st; showForm := false;
     editingTask := editingTask st; testStarted := testStarted st;
     searchQuery := searchQuery st |}.

Definition handleEditTask (taskToEdit : Task) (st : Index) : Index :=
  {| tasks := tasks st; showForm := true; editingTask := Some taskToEdit;
     testStarted := testStarted st; searchQuery := searchQuery st |}.

Definition handleSaveEditedTask (editedTask : Task) (st : Index) : Index :=
  {| tasks :=
       (λ task, if bool_decide (id task = id editedTask)
                then editedTask else task) <$> tasks st;
     showForm := false; editingTask := None;
     testStarted := testStarted st; searchQuery := searchQuery st |}.

Definition handleDeleteTask (taskToDelete : Task) (st : Index) : Index :=
  {| tasks := filter (λ task, id task ≠ id taskToDelete) (tasks st);
     showForm := showForm st; editingTask := editingTask st;
     testStarted := testStarted st; searchQuery := searchQuery st |}.

Definition toggled (task : Task) : Task :=
  {| id := id task; title := title task; description := description task;
     priority := priority task; completed := negb (completed task);
     dueDate := dueDate task; createdAt := createdAt task |}.

Definition handleToggleComplete (taskToToggle : Task) (st : Index) : Index :=
  {| tasks :=
       (λ task, if bool_decide (id task = id taskToToggle)
                then toggled task else task) <$> tasks st;
     showForm := showForm st; editingTask := editingTask st;
     testStarted := testStarted st; searchQuery := searchQuery st |}.

(** [onCancel] as [Index] passes it to the form. *)
Definition onCancel (st : Index) : Index :=
  {| tasks := tasks st; showForm := false; editingTask := editingTask st;
     testStarted := testStarted st; searchQuery := searchQuery st |}.

(** The user submits the form that [Index] renders: the form was given
    [initialTask = editingTask] and [onSave] is chosen by [editingTask].
    The second component is the argument of [setErrors], if it was called. *)
Definition submit (f : Fields) (uuid now : string) (st : Index)
  : Index * option (gmap string string) :=
  match handleSubmit f (editingTask st) uuid now with
  | SetErrors newErrors => (st, Some newErrors)
  | OnSave newTask =>
      let onSave :=
        match editingTask st with
        | Some _ => handleSaveEditedTask
        | None => handleAddTask
        end in
      (onCancel (onSave newTask st), None)
  end.

(** The predicate of the search effect's [tasks.filter]. *)
Definition matches (lowerCaseQuery : string) (task : Task) : bool :=
  Js.includes (Js.toLowerCase (title task)) lowerCaseQuery ||
  match description task with
  | Some d => Js.truthy d && Js.includes (Js.toLowerCase d) lowerCaseQuery
  | None => false
  end.

(** The search effect: the value given to [setFilteredTasks]. *)
Definition filteredTasks (tasks : list Task) (searchQuery : string) : list Task :=
  if bool_decide (Js.trim searchQuery = "") then tasks
  else
    let lowerCaseQuery := Js.toLowerCase searchQuery in
    List.filter (matches lowerCaseQuery) tasks.

(** *** The sessions of the application *)

Definition initial : Index :=
  {| tasks := []; showForm := false; editingTask := None;
     testStarted := false; searchQuery := "" |}.

(** What the user can do on the page. *)
Inductive event :=
  | StartTest
  | ResetTest
  | ClickAddTask
  | ClickEdit (task : Task)
  | ClickDelete (task : Task)
  | ClickToggle (task : Task)
  | Search (query : string)
  | Cancel
  | Submit (f : Fields) (uuid now : string).

(** The handler that [Index] attaches to each of them. *)
Definition handle (e : event) (st : Index) : Index :=
  match e with
  | StartTest => handleStartTest st
  | ResetTest => handleResetTest st
  | ClickAddTask =>
      {| tasks := tasks st; showForm := negb (showForm st); editingTask := None;
         testStarted := testStarted st; searchQuery := searchQuery st |}
  | ClickEdit task => handleEditTask task st
  | ClickDelete task => handleDeleteTask task st
  | ClickToggle task => handleToggleComplete task st
  | Search query =>
      {| tasks := tasks st; showForm := showForm st;
         editingTask := editingTask st; testStarted := testStarted st;
         searchQuery := query |}
  | Cancel => onCancel st
  | Submit f uuid now => fst (submit f uuid now st)
  end.

(** When an event can happen.  A card is there to be clicked only for a
    task of the filtered list, and the form can be submitted only while it
    is shown.  [uuidv4()] returns a non-empty identifier that no task of
    the session carries, and [toISOString()] a non-empty text. *)
Definition enabled (e : event) (st : Index) : Prop :=
  match e with
  | ClickEdit task | ClickDelete task | ClickToggle task =>
      task ∈ filteredTasks (tasks st) (searchQuery st)
  | Submit f uuid now =>
      showForm st = true ∧ uuid ≠ "" ∧ now ≠ "" ∧
      (uuid ∉ id <$> tasks st) ∧
      (∀ t, editingTask st = Some t → id t ≠ uuid)
  | _ => True
  end.

(** The states of a session that starts with the empty list, or with the
    list that an earlier session of the page has saved and that the load
    effect gives back.  A session that starts from other stored text is not
    among them: the load effect ([Load.load]) installs whatever
    [JSON.parse] returns, also tasks with an empty or a repeated
    identifier. *)
Inductive reachable : Index → Prop :=
  | reachable_initial : reachable initial
  | reachable_reload st :
      reachable st →
      reachable {| tasks := tasks st; showForm := false; editingTask := None;
                   testStarted := false; searchQuery := "" |}
  | reachable_handle e st :
      reachable st → enabled e st → reachable (handle e st).

(** What every task of a session satisfies. *)
Definition wf_task (t : Task) : Prop :=
  id t ≠ "" ∧ createdAt t ≠ "" ∧ Js.trim (title t) ≠ "".

Definition store_inv (st : Index) : Prop :=
  NoDup (id <$> tasks st) ∧
  Forall wf_task (tasks st) ∧
  (∀ t0, editingTask st = Some t0 →
     wf_task t0 ∧
     ∀ x, x ∈ tasks st → id x = id t0 → createdAt x = createdAt t0).

(** A short session: the form is opened, a task is created, and its edit
    button is clicked. *)
Definition sample_fields : Fields :=
  {| f_title := " Buy milk "; f_description := "2 l";
     f_priority := high; f_dueDate := "" |}.

Definition sample_task : Task :=
  {| id := "u1"; title := " Buy milk "; description := Some "2 l";
     priority := high; completed := false; dueDate := None;
     createdAt := "2024-01-01T00:00:00.000Z" |}.

Definition sample_created : Index :=
  handle (Submit sample_fields "u1" "2024-01-01T00:00:00.000Z")
    (handle ClickAddTask initial).

Definition sample_editing : Index := handle (ClickEdit sample_task) sample_created.

(** [n] clicks on the toggle of [task]. *)
Definition toggles (n : nat) (task : Task) (st : Index) : Index :=
  Nat.iter n (handleToggleComplete task) st.

End Store.

(** ** The form while it is on the page *)

Module Form.

(** The page together with the form it shows: [fields] is what the
    [useState] cells of the mounted [TaskForm] hold, and [None] while no
    form is mounted.  The initial values of the cells are read from
    [initialTask] when the form is mounted, and at no other time; [Index]
    gives the form no [key], so a form that is on the page in two
    successive renders is the same form and keeps its cells. *)
Record page := mk {
  index : Store.Index;
  fields : option Store.Fields
}.

(** [Index] renders the form inside the test content, while [showForm]
    holds. *)
Definition rendered (st : Store.Index) : bool :=
  Store.testStarted st && Store.showForm st.

(** The cells of the form after [Index] has rendered [st]. *)
Definition render (st : Store.Index) (before : option Store.Fields)
  : option Store.Fields :=
  if rendered st then
    match before with
    | Some f => Some f
    | None => Some (Store.initialFields (Store.editingTask st))
    end
  else None.

(** The page when [Index] has rendered [st] and no form was there before. *)
Definition mount (st : Store.Index) : page :=
  {| index := st; fields := render st None |}.

(** The user acts on [Index]: a button, a card or the search box. *)
Definition click (e : Store.event) (p : page) : page :=
  let st := Store.handle e (index p) in
  {| index := st; fields := render st (fields p) |}.

(** The user edits the inputs of the form, which then hold [f]. *)
Definition change (f : Store.Fields) (p : page) : page :=
  {| index := index p; fields := (λ _, f) <$> fields p |}.

(** The user submits the form with what its cells hold. *)
Definition submit (uuid now : string) (p : page) : page :=
  match fields p with
  | Some f => click (Store.Submit f uuid now) p
  | None => p
  end.

End Form.

(** ** [JSON.parse] and the load effect *)

Module Json.

(** A parsed JSON text.  A string is the list of its code units, escapes
    decoded; a number keeps its text (its value is a double and no property
    below depends on it); an object keeps its members in source order. *)
Inductive value :=
  | Null
  | Bool (b : bool)
  | Number (text : string)
  | Str (units : list N)
  | Array (items : list value)
  | Object (members : list (list N * value)).

(** A container that is still open. *)
Inductive frame :=
  | FArray (items : list value)
  | FObject (members : list (list N * value))
  | FMember (members : list (list N * value)) (key : list N).

(** Where the scanner is inside a number. *)
Inductive num_phase :=
  | NMinus | NZero | NInt | NDot | NFrac | NExp | NExpSign | NExpDigits.

(** Where the scanner is inside a string: plain text, after a backslash,
    or inside [\uXXXX] with [remaining] digits to go and [code] so far. *)
Inductive str_phase :=
  | Plain
  | Escaped
  | Hex (remaining : nat) (code : N).

(** What the parser expects next.  Accumulators are in reverse order. *)
Inductive mode :=
  | Value (first : bool)
  | Key (first : bool)
  | Colon
  | After
  | Done (v : value)
  | InStr (is_key : bool) (p : str_phase) (acc : list N)
  | InNum (p : num_phase) (acc : list ascii)
  | InLit (rest : string) (v : value).

Definition pstate : Type := list frame * mode.

Definition is_ws (c : ascii) : bool :=
  let n := N_of_ascii c in ((n =? 9) || (n =? 10) || (n =? 13) || (n =? 32))%N.

Definition is_digit (c : ascii) : bool :=
  let n := N_of_ascii c in ((48 <=? n) && (n <=? 57))%N.

Definition hex_value (c : ascii) : option N :=
  let n := N_of_ascii c in
  if ((48 <=? n) && (n <=? 57))%N then Some (n - 48)%N
  else if ((65 <=? n) && (n <=? 70))%N then Some (n - 55)%N
  else if ((97 <=? n) && (n <=? 102))%N then Some (n - 87)%N
  else None.

(** The code unit a single-character escape stands for. *)
Definition escape_value (c : ascii) : option N :=
  match c with
  | "034"%char => Some 34 | "\"%char => Some 92 | "/"%char => Some 47
  | "b"%char => Some 8 | "f"%char => Some 12 | "n"%char => Some 10
  | "r"%char => Some 13 | "t"%char => Some 9
  | _ => None
  end%N.

Definition string_of_rev (acc : list ascii) : string :=
  string_of_list_ascii (rev acc).

(** A value is complete: it is the whole text, or it goes into the
    innermost open container. *)
Definition complete (v : value) (stack : list frame) : option pstate :=
  match stack with
  | [] => Some ([], Done v)
  | FArray items :: st => Some (FArray (v :: items) :: st, After)
  | FMember members key :: st => Some (FObject ((key, v) :: members) :: st, After)
  | FObject _ :: _ => None
  end.

(** One character outside strings, numbers and literals. *)
Definition step_token (stack : list frame) (m : mode) (c : ascii)
  : option pstate :=
  if is_ws c then Some (stack, m) else
  match m with
  | Value first =>
      match c with
      | "["%char => Some (FArray [] :: stack, Value true)
      | "{"%char => Some (FObject [] :: stack, Key true)
      | "034"%char => Some (stack, InStr false Plain [])
      | "-"%char => Some (stack, InNum NMinus [c])
      | "0"%char => Some (stack, InNum NZero [c])
      | "t"%char => Some (stack, InLit "rue" (Bool true))
      | "f"%char => Some (stack, InLit "alse" (Bool false))
      | "n"%char => Some (stack, InLit "ull" Null)
      | "]"%char =>
          match first, stack with
          | true, FArray [] :: st => complete (Array []) st
          | _, _ => None
          end
      | _ => if is_digit c then Some (stack, InNum NInt [c]) else None
      end
  | Key first =>
      match c with
      | "034"%char => Some (stack, InStr true Plain [])
      | "}"%char =>
          match first, stack with
          | true, FObject [] :: st => complete (Object []) st
          | _, _ => None
          end
      | _ => None
      end
  | Colon =>
      match c with
      | ":"%char => Some (stack, Value false)
      | _ => None
      end
  | After =>
      match c, stack with
      | ","%char, FArray _ :: _ => Some (stack, Value false)
      | "]"%char, FArray items :: st => complete (Array (rev items)) st
      | ","%char, FObject _ :: _ => Some (stack, Key false)
      | "}"%char, FObject members :: st => complete (Object (rev members)) st
      | _, _ => None
      end
  | _ => None
  end.

(** One character inside a string. *)
Definition step_string (stack : list frame) (is_key : bool) (p : str_phase)
    (acc : list N) (c : ascii) : option pstate :=
  match p with
  | Plain =>
      match c with
      | "034"%char =>
          if is_key then
            match stack with
            | FObject members :: st => Some (FMember members (rev acc) :: st, Colon)
            | _ => None
            end
          else complete (Str (rev acc)) stack
      | "\"%char => Some (stack, InStr is_key Escaped acc)
      | _ =>
          if (N_of_ascii c <? 32)%N then None
          else Some (stack, InStr is_key Plain (N_of_ascii c :: acc))
      end
  | Escaped =>
      match c with
      | "u"%char => Some (stack, InStr is_key (Hex 4 0) acc)
      | _ =>
          match escape_value c with
          | Some u => Some (stack, InStr is_key Plain (u :: acc))
          | None => None
          end
      end
  | Hex remaining code =>
      match hex_value c with
      | Some d =>
          let code' := (16 * code + d)%N in
          match remaining with
          | S (S r) => Some (stack, InStr is_key (Hex (S r) code') acc)
          | _ => Some (stack, InStr is_key Plain (code' :: acc))
          end
      | None => None
      end
  end.

(** The phase after one more character of a number, if it continues. *)
Definition num_next (p : num_phase) (c : ascii) : option num_phase :=
  let e := bool_decide (c = "e"%char) || bool_decide (c = "E"%char) in
  let dot := bool_decide (c = "."%char) in
  let sign := bool_decide (c = "+"%char) || bool_decide (c = "-"%char) in
  match p with
  | NMinus =>
      if bool_decide (c = "0"%char) then Some NZero
      else if is_digit c then Some NInt else None
  | NZero => if dot then Some NDot else if e then Some NExp else None
  | NInt =>
      if is_digit c then Some NInt
      else if dot then Some NDot else if e then Some NExp else None
  | NDot => if is_digit c then Some NFrac else None
  | NFrac => if is_digit c then Some NFrac else if e then Some NExp else None
  | NExp =>
      if is_digit c then Some NExpDigits
      else if sign then Some NExpSign else None
  | NExpSign => if is_digit c then Some NExpDigits else None
  | NExpDigits => if is_digit c then Some NExpDigits else None
  end.

(** A number may end in these phases. *)
Definition num_final (p : num_phase) : bool :=
  match p with
  | NZero | NInt | NFrac | NExpDigits => true
  | _ => false
  end.

(** One character of the text. *)
Definition step (s : pstate) (c : ascii) : option pstate :=
  let '(stack, m) := s in
  match m with
  | InStr is_key p acc => step_string stack is_key p acc c
  | InNum p acc =>
      match num_next p c with
      | Some p' => Some (stack, InNum p' (c :: acc))
      | None =>
          if num_final p then
            match complete (Number (string_of_rev acc)) stack with
            | Some (stack', m') => step_token stack' m' c
            | None => None
            end
          else None
      end
  | InLit rest v =>
      match rest with
      | String c' r =>
          if bool_decide (c = c') then
            if bool_decide (r = "") then complete v stack
            else Some (stack, InLit r v)
          else None
      | EmptyString => None
      end
  | Done _ => if is_ws c then Some s else None
  | _ => step_token stack m c
  end.

Fixpoint steps (s : pstate) (text : string) : option pstate :=
  match text with
  | EmptyString => Some s
  | String c r =>
      match step s c with
      | Some s' => steps s' r
      | None => None
      end
  end.

(** The rest of a text, after a part of it that was accepted. *)
Definition then_steps (s : option pstate) (text : string) : option pstate :=
  match s with
  | Some s' => steps s' text
  | None => None
  end.

(** The end of the text. *)
Definition finish (s : pstate) : option value :=
  match s with
  | ([], Done v) => Some v
  | ([], InNum p acc) =>
      if num_final p then Some (Number (string_of_rev acc)) else None
  | _ => None
  end.

(** [JSON.parse(text)]; [None] when it throws a [SyntaxError]. *)
Definition parse (text : string) : option value :=
  match steps ([], Value false) text with
  | Some s => finish s
  | None => None
  end.

End Json.

Module Load.

(** What [localStorage.getItem('tasks')] does. *)
Inductive getItem_result :=
  | Throws
  | Missing
  | Item (storedTasks : string).

(** The body of the [try] block: an exception ([None]), or the argument
    of [setTasks] if it was called. *)
Definition try_block (r : getItem_result) : option (option Json.value) :=
  match r with
  | Throws => None
  | Missing => Some None
  | Item storedTasks =>
      if Js.truthy storedTasks then
        match Json.parse storedTasks with
        | Some loadedTasks => Some (Some loadedTasks)
        | None => None
        end
      else Some None
  end.

(** The load effect on the initial state [useState([])]: the value of
    [tasks] afterwards and whether [console.error] was called.  The
    [catch] block handles every exception. *)
Definition load (r : getItem_result) : Json.value * bool :=
  match try_block r with
  | None => (Json.Array [], true)
  | Some None => (Json.Array [], false)
  | Some (Some loadedTasks) => (loadedTasks, false)
  end.

(** In the specification's words: the stored text is a valid serialization
    of a task list when it parses to an array of objects that have the
    fields of [Task] with values of the right kind.  Of members with the
    same name the last one counts. *)
Definition units (s : string) : list N :=
  N_of_ascii <$> list_ascii_of_string s.

Definition field (name : string) (members : list (list N * Json.value))
  : option Json.value :=
  snd <$> List.find (λ m, bool_decide (fst m = units name)) (rev members).

Definition is_string (v : option Json.value) : bool :=
  match v with Some (Json.Str _) => true | _ => false end.

Definition is_optional_string (v : option Json.value) : bool :=
  match v with Some (Json.Str _) | None => true | _ => false end.

Definition is_boolean (v : option Json.value) : bool :=
  match v with Some (Json.Bool _) => true | _ => false end.

Definition is_priority (v : option Json.value) : bool :=
  match v with
  | Some (Json.Str u) =>
      bool_decide (u = units "high") || bool_decide (u = units "medium") ||
      bool_decide (u = units "low")
  | _ => false
  end.

Definition is_task (v : Json.value) : bool :=
  match v with
  | Json.Object members =>
      is_string (field "id" members) && is_string (field "title" members) &&
      is_optional_string (field "description" members) &&
      is_priority (field "priority" members) &&
      is_boolean (field "completed" members) &&
      is_optional_string (field "dueDate" members) &&
      is_string (field "createdAt" members)
  | _ => false
  end.

Definition is_task_list (v : Json.value) : bool :=
  match v with
  | Json.Array items => forallb is_task items
  | _ => false
  end.

Definition valid_serialization (storedTasks : string) : Prop :=
  ∃ v, Json.parse storedTasks = Some v ∧ is_task_list v = true.

(** What [JSON.stringify] writes for the list that holds the task
    [{id: "u1", title: " Buy milk ", ...}] of the sample session. *)
Definition quoted (s : string) : string :=
  String "034"%char (s +:+ String "034"%char "").

Definition sample_storedTasks : string :=
  "[{" +:+ quoted "id" +:+ ":" +:+ quoted "u1" +:+ "," +:+
  quoted "title" +:+ ":" +:+ quoted " Buy milk " +:+ "," +:+
  quoted "description" +:+ ":" +:+ quoted "2 l" +:+ "," +:+
  quoted "priority" +:+ ":" +:+ quoted "high" +:+ "," +:+
  quoted "completed" +:+ ":false," +:+
  quoted "createdAt" +:+ ":" +:+ quoted "2024-01-01T00:00:00.000Z" +:+ "}]".

End Load.

(** ** [JSON.stringify] and the save effect *)

Module Save.

(** A lower-case hexadecimal digit. *)
Definition hex_digit (d : N) : ascii :=
  if (d <? 10)%N then ascii_of_N (48 + d) else ascii_of_N (87 + d).

(** What [JSON.stringify] writes for one code unit of a string. *)
Definition quote_unit (c : ascii) : string :=
  let n := N_of_ascii c in
  if (n =? 8)%N then "\b"
  else if (n =? 9)%N then "\t"
  else if (n =? 10)%N then "\n"
  else if (n =? 12)%N then "\f"
  else if (n =? 13)%N then "\r"
  else if (n =? 34)%N then String "\"%char (String "034"%char "")
  else if (n =? 92)%N then "\\"
  else if (n <? 32)%N then
    "\u00" +:+ String (hex_digit (n / 16)) (String (hex_digit (n mod 16)) "")
  else String c "".

Fixpoint quote_units (s : string) : string :=
  match s with
  | EmptyString => ""
  | String c r => quote_unit c +:+ quote_units r
  end.

(** [JSON.stringify] of a string. *)
Definition quote (s : string) : string :=
  String "034"%char (quote_units s +:+ String "034"%char "").

(** The values of a task's properties. *)
Inductive scalar :=
  | SString (s : string)
  | SBool (b : bool).

Definition Priority_name (p : Store.Priority) : string :=
  match p with
  | Store.high => "high"
  | Store.medium => "medium"
  | Store.low => "low"
  end.

(** The properties of a task that [JSON.stringify] writes, in the order in
    which the object literal of [handleSubmit] lists them; a property whose
    value is [undefined] is left out. *)
Definition properties (t : Store.Task) : list (string * scalar) :=
  [("id", SString (Store.id t)); ("title", SString (Store.title t))] ++
  match Store.description t with
  | Some d => [("description", SString d)]
  | None => []
  end ++
  [("priority", SString (Priority_name (Store.priority t)));
   ("completed", SBool (Store.completed t))] ++
  match Store.dueDate t with
  | Some d => [("dueDate", SString d)]
  | None => []
  end ++
  [("createdAt", SString (Store.createdAt t))].

Definition stringify_scalar (v : scalar) : string :=
  match v with
  | SString s => quote s
  | SBool true => "true"
  | SBool false => "false"
  end.

Definition stringify_property (p : string * scalar) : string :=
  quote (fst p) +:+ ":" +:+ stringify_scalar (snd p).

Definition stringify_object (ps : list (string * scalar)) : string :=
  "{" +:+ join "," (stringify_property <$> ps) +:+ "}".

(** [JSON.stringify(tasks)]. *)
Definition stringify (tasks : list Store.Task) : string :=
  "[" +:+ join "," ((λ t, stringify_object (properties t)) <$> tasks) +:+ "]".

(** The task list as the value that [JSON.parse] builds for it. *)
Definition value_of_scalar (v : scalar) : Json.value :=
  match v with
  | SString s => Json.Str (Load.units s)
  | SBool b => Json.Bool b
  end.

Definition member_of (p : string * scalar) : list N * Json.value :=
  (Load.units (fst p), value_of_scalar (snd p)).

Definition value_of_object (ps : list (string * scalar)) : Json.value :=
  Json.Object (member_of <$> ps).

Definition value_of_tasks (tasks : list Store.Task) : Json.value :=
  Json.Array ((λ t, value_of_object (properties t)) <$> tasks).

(** The slot [tasks] of [localStorage]: whether the page may use the
    storage at all, what the slot holds, and how long a text it takes. *)
Record storage := mkStorage {
  available : bool;
  content : option string;
  quota : nat
}.

(** [localStorage.getItem('tasks')]. *)
Definition getItem (st : storage) : Load.getItem_result :=
  if available st then
    match content st with
    | Some s => Load.Item s
    | None => Load.Missing
    end
  else Load.Throws.

(** [localStorage.setItem('tasks', text)]; [None] when it throws, which
    leaves the slot as it was. *)
Definition setItem (text : string) (st : storage) : option storage :=
  if available st && bool_decide (String.length text ≤ quota st)%nat
  then Some {| available := true; content := Some text; quota := quota st |}
  else None.

(** The save effect: the storage afterwards and whether [console.error]
    was called. *)
Definition save (tasks : list Store.Task) (st : storage) : storage * bool :=
  match setItem (stringify tasks) st with
  | Some st' => (st', false)
  | None => (st, true)
  end.

(** The effects of the first render, in the order of the source: the load
    effect reads the slot, then the save effect writes the [tasks] of that
    render, the empty list. *)
Definition first_render (st : storage)
  : option (option Json.value) * (storage * bool) :=
  (Load.try_block (getItem st), save [] st).

(** The storage when the effects of a start have settled, and whether a
    save effect logged an error.  When the load effect has called
    [setTasks], the page renders again and the save effect runs once more,
    with the list that was installed: [loadedTasks] is that list, and
    [None] when [setTasks] was not called. *)
Definition start (loadedTasks : option (list Store.Task)) (st : storage)
  : storage * bool :=
  let first := snd (first_render st) in
  match loadedTasks with
  | Some tasks =>
      let second := save tasks (fst first) in
      (fst second, snd first || snd second)
  | None => first
  end.

End Save.

(** ** The page: [Index] with its timer *)

Module App.

Record state := mk {
  index : Store.Index;
  timer : Timer.state
}.

Definition initial : state :=
  {| index := Store.initial; timer := Timer.init Timer.initialTime |}.

(** What happens on the page: the user acts, a second passes, or the page
    is loaded again.  [Reload] stands for a reload in which the load effect
    gives back the list that the page has saved, as it does when the slot
    is as the page left it; the load effect itself is [Load.load], and a
    slot with other text is outside these runs. *)
Inductive event :=
  | User (e : Store.event)
  | Second
  | Reload.

(** [handleStartTest] and [handleResetTest] also call the timer. *)
Definition handle (e : event) (s : state) : state :=
  match e with
  | User Store.StartTest =>
      {| index := Store.handleStartTest (index s);
         timer := Timer.startTimer (timer s) |}
  | User Store.ResetTest =>
      {| index := Store.handleResetTest (index s);
         timer := Timer.resetTimer Timer.initialTime (timer s) |}
  | User e => {| index := Store.handle e (index s); timer := timer s |}
  | Second => {| index := index s; timer := Timer.second (timer s) |}
  | Reload =>
      {| index :=
           {| Store.tasks := Store.tasks (index s); Store.showForm := false;
              Store.editingTask := None; Store.testStarted := false;
              Store.searchQuery := "" |};
         timer := Timer.init Timer.initialTime |}
  end.

(** What the page renders decides what the user can do: the start buttons
    are there before the test has started and everything else after; the
    Add Task button is disabled when the time is up; the form is there while
    [showForm] holds. *)
Definition enabled (e : event) (s : state) : Prop :=
  match e with
  | User Store.StartTest => Store.testStarted (index s) = false
  | User Store.ClickAddTask =>
      Store.testStarted (index s) = true ∧ Timer.isTimeUp (timer s) = false
  | User Store.Cancel =>
      Store.testStarted (index s) = true ∧ Store.showForm (index s) = true
  | User e => Store.testStarted (index s) = true ∧ Store.enabled e (index s)
  | Second | Reload => True
  end.

(** A run of the page. *)
Inductive runs : state → list event → state → Prop :=
  | runs_nil s : runs s [] s
  | runs_cons s e es s' :
      enabled e s → runs (handle e s) es s' → runs s (e :: es) s'.

Definition reachable (s : state) : Prop := ∃ es, runs initial es s.

(** What holds of the two parts of a page and between them. *)
Definition page_inv (s : state) : Prop :=
  Store.reachable (index s) ∧
  Timer.reachable Timer.initialTime (timer s) ∧
  (Store.testStarted (index s) = false ↔ Timer.timerRef (timer s) = None).

(** The time is up and the form, if shown, edits a task. *)
Definition closed_for_new_tasks (s : state) : Prop :=
  Timer.isTimeUp (timer s) = true ∧
  (Store.showForm (index s) = true → Store.editingTask (index s) ≠ None).

(** Two states in which the time is up: the test was started and an hour
    went by, with the form closed, and with the form opened for a new task
    before the hour began. *)
Definition expired_closed : state :=
  {| index := Store.handleStartTest Store.initial;
     timer := Timer.expired_state |}.

Definition expired_with_form : state :=
  {| index :=
       Store.handle Store.ClickAddTask (Store.handleStartTest Store.initial);
     timer := Timer.expired_state |}.

End App.

(** * Properties *)

(** ** Timer *)

Section timer_facts.
Import Timer.

Lemma clearInterval_self h : clearInterval (Some h) [h] = [].
Proof.
  unfold clearInterval. rewrite filter_cons, decide_False by naive_solver.
  reflexivity.
Qed.

Lemma second_single s h :
  intervals s = [h] → second s = tick s.
Proof.
  intros E. unfold second, fire. rewrite E. simpl.
  rewrite E. rewrite bool_decide_true by apply list_elem_of_here. reflexivity.
Qed.

Lemma second_idle s : intervals s = [] → second s = s.
Proof. intros E. unfold second. rewrite E. reflexivity. Qed.

Lemma timer_inv_init n : timer_inv (init n).
Proof. split; reflexivity. Qed.

Lemma timer_inv_start s : timer_inv s → timer_inv (startTimer s).
Proof.
  unfold timer_inv, startTimer. destruct (timerRef s) eqn:E; simpl.
  - rewrite E. auto.
  - intros [Hi _]. rewrite Hi. left. auto.
Qed.

Lemma timer_inv_reset n s : timer_inv s → timer_inv (resetTimer n s).
Proof.
  unfold timer_inv, resetTimer. cbn [timerRef intervals isTimeUp].
  destruct (timerRef s) as [h|].
  - intros [[-> _]|[-> _]]; [rewrite clearInterval_self|]; auto.
  - intros [-> _]. auto.
Qed.

Lemma timer_inv_tick s h :
  timerRef s = Some h → intervals s = [h] → isTimeUp s = false →
  timer_inv (tick s).
Proof.
  intros Hr Hi Hu. unfold timer_inv, tick.
  case_bool_decide; simpl; rewrite Hr.
  - rewrite Hi, clearInterval_self. right. auto.
  - left. auto.
Qed.

Lemma timer_inv_second s : timer_inv s → timer_inv (second s).
Proof.
  intros H. pose proof H as H'. unfold timer_inv in H'.
  destruct (timerRef s) as [h|] eqn:E.
  - destruct H' as [[Hi Hu]|[Hi _]].
    + rewrite (second_single s h Hi). eauto using timer_inv_tick.
    + rewrite second_idle; auto.
  - destruct H' as [Hi _]. rewrite second_idle; auto.
Qed.

Lemma timer_inv_reachable n s : reachable n s → timer_inv s.
Proof.
  induction 1 as [|e s _ IH]; [apply timer_inv_init|].
  destruct e; simpl;
    auto using timer_inv_start, timer_inv_reset, timer_inv_second.
Qed.

(** The countdown in closed form, for a positive initial time. *)
Lemma seconds_closed_form (n : Z) (k : nat) :
  1 ≤ n →
  seconds k (startTimer (init n)) =
    {| timeRemaining := Z.max 0 (n - Z.of_nat k);
       isTimeUp := bool_decide (n ≤ Z.of_nat k);
       timerRef := Some 1%positive;
       intervals := if bool_decide (n ≤ Z.of_nat k) then [] else [1%positive];
       nextHandle := 2 |}.
Proof.
  intros Hn. induction k as [|k IH].
  - simpl. unfold startTimer, init; simpl.
    rewrite bool_decide_false by lia. f_equal. lia.
  - unfold seconds in *. simpl. rewrite IH. clear IH.
    destruct (decide (n ≤ Z.of_nat k)) as [Hle|Hgt].
    + rewrite (bool_decide_true _ Hle), second_idle by reflexivity.
      rewrite bool_decide_true by lia. f_equal; lia.
    + rewrite (bool_decide_false _ Hgt).
      erewrite second_single by reflexivity.
      unfold tick; cbn [timeRemaining isTimeUp timerRef intervals nextHandle].
      destruct (decide (n ≤ Z.of_nat (S k))) as [Hle'|Hgt'].
      * rewrite (bool_decide_true _ Hle').
        rewrite bool_decide_true by lia.
        rewrite clearInterval_self. f_equal. lia.
      * rewrite (bool_decide_false _ Hgt').
        rewrite bool_decide_false by lia. f_equal. lia.
Qed.

Lemma expired_state_eq :
  expired_state =
    {| timeRemaining := 0; isTimeUp := true; timerRef := Some 1%positive;
       intervals := []; nextHandle := 2 |}.
Proof.
  unfold expired_state, initialTime.
  rewrite seconds_closed_form by lia. reflexivity.
Qed.

Lemma reachable_run n es s : reachable n s → reachable n (run n es s).
Proof.
  revert s. induction es as [|e es IH]; intros s H; simpl; [assumption|].
  apply IH. by constructor.
Qed.

Lemma reachable_seconds n k s : reachable n s → reachable n (seconds k s).
Proof.
  intros H. induction k as [|k IH]; [assumption|].
  apply (reachable_step n Second). assumption.
Qed.

Lemma expired_state_reachable : reachable initialTime expired_state.
Proof.
  apply reachable_seconds. apply (reachable_step _ Start). constructor.
Qed.

(** Without a reset nothing moves a state whose handle is stale. *)
Lemma run_stale n es s :
  Reset ∉ es → timerRef s ≠ None → intervals s = [] → run n es s = s.
Proof.
  intros Hes Hr Hi. induction es as [|e es IH]; [reflexivity|].
  apply not_elem_of_cons in Hes as [He Hes]. simpl.
  destruct e; simpl.
  - unfold startTimer. destruct (timerRef s); [auto|congruence].
  - congruence.
  - rewrite second_idle; auto.
Qed.

End timer_facts.

(** C1, as stated, fails: after the countdown has run out and before any
    reset, the countdown is not running, yet [startTimer] neither clears
    [isTimeUp] nor starts a countdown, because [timerRef.current] still
    holds the cleared handle. *)
Lemma C1_start_after_expiry_counterexample :
  Timer.reachable Timer.initialTime Timer.expired_state ∧
  Timer.running Timer.expired_state = false ∧
  ¬ (Timer.isTimeUp (Timer.startTimer Timer.expired_state) = false ∧
     Timer.running (Timer.startTimer Timer.expired_state) = true).
Proof.
  split; [apply expired_state_reachable|].
  rewrite expired_state_eq. split; [reflexivity|].
  intros [H _]. discriminate H.
Qed.

(** C1, amended: in every reachable state, [startTimer] acts exactly when
    no countdown was started since creation or the last reset
    ([timerRef.current] is [null]): it then clears [isTimeUp], leaves
    [timeRemaining] as it is and registers one interval, whose callback runs
    once per second and decrements [timeRemaining] (not below zero).  In
    every other reachable state, that is while the countdown is running and
    after it has run out until the next reset, [startTimer] changes
    nothing; in particular calling it twice is calling it once. *)
Theorem C1_start_amended (n : Z) (s : Timer.state) :
  Timer.reachable n s →
  (Timer.timerRef s = None →
     Timer.running s = false ∧
     Timer.startTimer s =
       {| Timer.timeRemaining := Timer.timeRemaining s;
          Timer.isTimeUp := false;
          Timer.timerRef := Some (Timer.nextHandle s);
          Timer.intervals := [Timer.nextHandle s];
          Timer.nextHandle := Pos.succ (Timer.nextHandle s) |} ∧
     Timer.running (Timer.startTimer s) = true ∧
     Timer.second (Timer.startTimer s) = Timer.tick (Timer.startTimer s) ∧
     Timer.timeRemaining (Timer.second (Timer.startTimer s)) =
       Z.max 0 (Timer.timeRemaining s - 1)) ∧
  (Timer.timerRef s ≠ None → Timer.startTimer s = s) ∧
  (Timer.running s = true → Timer.startTimer s = s) ∧
  (Timer.isTimeUp s = true → Timer.running s = false ∧ Timer.startTimer s = s) ∧
  Timer.startTimer (Timer.startTimer s) = Timer.startTimer s.
Proof.
  intros Hs. apply timer_inv_reachable in Hs. unfold Timer.timer_inv in Hs.
  assert (Hstale : Timer.timerRef s ≠ None → Timer.startTimer s = s).
  { unfold Timer.startTimer. destruct (Timer.timerRef s); congruence. }
  split; [|split; [|split; [|split]]].
  - intros Hr. rewrite Hr in Hs. destruct Hs as [Hi Hu].
    assert (Hst : Timer.startTimer s =
       {| Timer.timeRemaining := Timer.timeRemaining s;
          Timer.isTimeUp := false;
          Timer.timerRef := Some (Timer.nextHandle s);
          Timer.intervals := [Timer.nextHandle s];
          Timer.nextHandle := Pos.succ (Timer.nextHandle s) |}).
    { unfold Timer.startTimer. rewrite Hr, Hi. reflexivity. }
    split; [unfold Timer.running; rewrite Hi; reflexivity|].
    split; [exact Hst|]. rewrite Hst.
    split; [reflexivity|].
    erewrite second_single by reflexivity.
    split; [reflexivity|].
    unfold Timer.tick. cbn [Timer.timeRemaining].
    case_bool_decide; cbn [Timer.timeRemaining]; lia.
  - exact Hstale.
  - intros Hrun. apply Hstale. intros Hr. rewrite Hr in Hs.
    destruct Hs as [Hi _]. unfold Timer.running in Hrun.
    rewrite Hi in Hrun. discriminate Hrun.
  - intros Hu. destruct (Timer.timerRef s) as [h|] eqn:Hr.
    + destruct Hs as [[_ Hf]|[Hi _]]; [congruence|].
      split; [unfold Timer.running; rewrite Hi; reflexivity|].
      apply Hstale. discriminate.
    + destruct Hs as [_ Hf]. congruence.
  - unfold Timer.startTimer at 1.
    destruct (Timer.timerRef (Timer.startTimer s)) eqn:Hr; [reflexivity|].
    unfold Timer.startTimer in Hr.
    destruct (Timer.timerRef s) eqn:Hr'; simpl in Hr; congruence.
Qed.

Lemma C1_start_amended_witness :
  Timer.reachable 3600 (Timer.init 3600) ∧
  Timer.startTimer (Timer.startTimer (Timer.init 3600)) =
    Timer.startTimer (Timer.init 3600).
Proof.
  split; [constructor|].
  exact (proj2 (proj2 (proj2 (proj2
    (C1_start_amended 3600 (Timer.init 3600) (Timer.reachable_init 3600)))))).
Defined.

(** C2: the callback replaces [timeRemaining] by its predecessor, or by
    zero where the predecessor would be negative.  Started from 3600, the
    hook shows [3600 - k] after [k] seconds; [isTimeUp] is false before the
    3600th tick and true from it on, so it turns true exactly once; from
    then on [timeRemaining] is zero, no interval is active, and neither
    [startTimer] nor the passing of time changes anything until
    [resetTimer], which restores 3600 and clears [isTimeUp]. *)
Theorem C2_countdown_from_3600 :
  let s0 := Timer.startTimer (Timer.init Timer.initialTime) in
  (∀ s, Timer.timeRemaining (Timer.tick s) = Z.max 0 (Timer.timeRemaining s - 1)) ∧
  (∀ k : nat,
     Timer.timeRemaining (Timer.seconds k s0) = Z.max 0 (3600 - Z.of_nat k) ∧
     Timer.isTimeUp (Timer.seconds k s0) = bool_decide (3600 ≤ k)%nat ∧
     Timer.running (Timer.seconds k s0) = bool_decide (k < 3600)%nat) ∧
  (∀ k : nat,
     Timer.isTimeUp (Timer.seconds k s0) = false ∧
     Timer.isTimeUp (Timer.seconds (S k) s0) = true ↔ k = 3599%nat) ∧
  (∀ k : nat, (3600 ≤ k)%nat → Timer.seconds k s0 = Timer.expired_state) ∧
  Timer.timeRemaining Timer.expired_state = 0 ∧
  Timer.isTimeUp Timer.expired_state = true ∧
  Timer.intervals Timer.expired_state = [] ∧
  (∀ h, Timer.fire h Timer.expired_state = Timer.expired_state) ∧
  (∀ es, Timer.Reset ∉ es →
     Timer.run Timer.initialTime es Timer.expired_state = Timer.expired_state) ∧
  (∀ es, Timer.Reset ∉ es →
     let r := Timer.resetTimer Timer.initialTime
                (Timer.run Timer.initialTime es Timer.expired_state) in
     Timer.timeRemaining r = 3600 ∧ Timer.isTimeUp r = false ∧
     Timer.timerRef r = None ∧ Timer.running r = false).
Proof.
  intros s0.
  assert (Hform : ∀ k : nat, Timer.seconds k s0 =
    {| Timer.timeRemaining := Z.max 0 (3600 - Z.of_nat k);
       Timer.isTimeUp := bool_decide (3600 ≤ Z.of_nat k);
       Timer.timerRef := Some 1%positive;
       Timer.intervals :=
         if bool_decide (3600 ≤ Z.of_nat k) then [] else [1%positive];
       Timer.nextHandle := 2 |}).
  { intros k. unfold s0, Timer.initialTime.
    apply seconds_closed_form. lia. }
  assert (Hup : ∀ k : nat,
    Timer.isTimeUp (Timer.seconds k s0) = bool_decide (3600 ≤ k)%nat).
  { intros k. rewrite Hform. cbn [Timer.isTimeUp].
    apply bool_decide_ext. lia. }
  assert (Hrun : ∀ es, Timer.Reset ∉ es →
    Timer.run Timer.initialTime es Timer.expired_state = Timer.expired_state).
  { intros es Hes. apply run_stale; [assumption| |];
      rewrite expired_state_eq; [discriminate|reflexivity]. }
  split.
  { intros s. unfold Timer.tick.
    case_bool_decide; cbn [Timer.timeRemaining]; lia. }
  split.
  { intros k. split; [rewrite Hform; reflexivity|]. split; [apply Hup|].
    rewrite Hform. unfold Timer.running. cbn [Timer.intervals].
    destruct (decide (3600 ≤ Z.of_nat k)) as [H|H].
    - rewrite (bool_decide_true _ H). simpl.
      symmetry. apply bool_decide_false. lia.
    - rewrite (bool_decide_false _ H). simpl.
      symmetry. apply bool_decide_true. lia. }
  split.
  { intros k. rewrite !Hup. split.
    - intros [H1 H2].
      apply bool_decide_eq_false in H1. apply bool_decide_eq_true in H2. lia.
    - intros ->. split; reflexivity. }
  split.
  { intros k Hk. rewrite Hform, expired_state_eq.
    rewrite bool_decide_true by lia. f_equal. lia. }
  rewrite expired_state_eq at 1 2 3.
  do 3 (split; [reflexivity|]).
  split.
  { intros h. rewrite expired_state_eq. unfold Timer.fire.
    cbn [Timer.intervals]. rewrite bool_decide_false; [reflexivity|].
    apply not_elem_of_nil. }
  split; [exact Hrun|].
  intros es Hes. rewrite (Hrun es) by assumption.
  rewrite expired_state_eq. repeat split.
Qed.

Lemma C2_countdown_from_3600_witness :
  (3600 ≤ 3601)%nat ∧
  Timer.seconds 3601 (Timer.startTimer (Timer.init Timer.initialTime)) =
    Timer.expired_state.
Proof.
  split; [lia|].
  apply (proj1 (proj2 (proj2 (proj2 C2_countdown_from_3600)))). lia.
Defined.

(** ** [formatTime] *)

Section format_facts.

Lemma pretty_N_go_length x s :
  (String.length s ≤ String.length (pretty_N_go x s))%nat.
Proof.
  revert s. induction (N.lt_wf_0 x) as [x _ IH]; intros s.
  destruct (decide (x = 0%N)) as [->|Hx]; [rewrite pretty_N_go_0; lia|].
  rewrite pretty_N_go_step by lia.
  etrans; [|apply IH; apply N.div_lt; lia]. simpl. lia.
Qed.

(** A number from 100 on has at least three decimal digits. *)
Lemma String_of_length_ge_3 n :
  100 ≤ n → (3 ≤ String.length (Js.String_of n))%nat.
Proof.
  intros Hn. destruct n as [|p|p]; try lia.
  unfold Js.String_of, pretty, pretty_Z, pretty, pretty_positive, pretty, pretty_N.
  rewrite decide_False by discriminate.
  assert (H1 : (0 < N.pos p)%N) by lia.
  assert (H2 : (0 < N.pos p `div` 10)%N) by (apply N.div_str_pos; lia).
  assert (H3 : (0 < (N.pos p `div` 10) `div` 10)%N).
  { apply N.div_str_pos. split; [lia|].
    apply N.div_le_lower_bound; lia. }
  rewrite 3!pretty_N_go_step by assumption.
  etrans; [|apply pretty_N_go_length]. simpl. lia.
Qed.

Lemma padStart_long s n pad :
  (n ≤ String.length s)%nat → Js.padStart s n pad = s.
Proof.
  intros H. unfold Js.padStart. rewrite bool_decide_true by assumption.
  reflexivity.
Qed.

(** Below 100 the padded numeral is the two digits. *)
Lemma padStart_two_digits n :
  0 ≤ n < 100 →
  Js.padStart (Js.String_of n) 2 "0" =
    String (digit_char (n `div` 10)) (String (digit_char (n `mod` 10)) "").
Proof.
  intros Hn.
  assert (Hall : Forall (λ k : nat,
    Js.padStart (Js.String_of (Z.of_nat k)) 2 "0" =
      String (digit_char (Z.of_nat k `div` 10))
        (String (digit_char (Z.of_nat k `mod` 10)) "")) (seq 0 100)).
  { apply (bool_decide_unpack _). vm_compute. exact I. }
  rewrite Forall_forall in Hall.
  specialize (Hall (Z.to_nat n)). rewrite Z2Nat.id in Hall by lia.
  apply Hall. apply elem_of_seq. lia.
Qed.

Lemma two_digit_intro n :
  0 ≤ n < 100 → two_digit n (Js.padStart (Js.String_of n) 2 "0").
Proof.
  intros Hn. exists (n `div` 10), (n `mod` 10).
  pose proof (Z.mod_pos_bound n 10 ltac:(lia)).
  pose proof (Z.div_mod n 10 ltac:(lia)).
  assert (0 ≤ n `div` 10 ≤ 9).
  { split; [apply Z.div_pos; lia|].
    apply Z.lt_succ_r. apply Z.div_lt_upper_bound; lia. }
  repeat split; try lia. apply padStart_two_digits. assumption.
Qed.

End format_facts.

(** C9, as stated, fails at 6000 seconds: the minutes take three digits,
    so the text is not of the form MM:SS. *)
Lemma C9_formatTime_6000_counterexample :
  formatTime 6000 = "100:00" ∧ ¬ MMSS 6000 (formatTime 6000).
Proof.
  split; [vm_compute; reflexivity|].
  intros (mm & ss & (a & b & _ & _ & _ & ->) & (c & d & _ & _ & _ & ->) & H).
  apply (f_equal String.length) in H. vm_compute in H. discriminate H.
Qed.

(** C9, amended: for every non-negative integer [s] below 6000,
    [formatTime] returns [s / 60] as two decimal digits, a colon and
    [s mod 60] as two decimal digits (MM:SS). *)
Theorem C9_formatTime_amended (s : Z) :
  0 ≤ s < 6000 → MMSS s (formatTime s).
Proof.
  intros Hs.
  assert (Hrem : s `rem` 60 = s `mod` 60) by (apply Z.rem_mod_nonneg; lia).
  pose proof (Z.mod_pos_bound s 60 ltac:(lia)) as Hmod.
  exists (Js.padStart (Js.String_of (s `div` 60)) 2 "0"),
         (Js.padStart (Js.String_of (s `mod` 60)) 2 "0").
  split; [|split].
  - apply two_digit_intro. split; [apply Z.div_pos; lia|].
    apply Z.div_lt_upper_bound; lia.
  - apply two_digit_intro. lia.
  - unfold formatTime. rewrite Hrem. reflexivity.
Qed.

Lemma C9_formatTime_amended_witness :
  0 ≤ 5999 < 6000 ∧ MMSS 5999 (formatTime 5999).
Proof.
  split; [lia|].
  apply (C9_formatTime_amended 5999). lia.
Defined.

(** ** Strings *)

Section string_facts.

Lemma whitespace_only_nil : Js.whitespace_only "".
Proof. intros c H. simpl in H. by apply elem_of_nil in H. Qed.

Lemma whitespace_only_cons c r :
  Js.whitespace_only (String c r) ↔
  Js.is_white_space c = true ∧ Js.whitespace_only r.
Proof.
  unfold Js.whitespace_only. simpl. split.
  - intros H. split; [apply H; left|intros d Hd; apply H; by right].
  - intros [Hc Hr] d Hd. apply elem_of_cons in Hd as [->|Hd]; auto.
Qed.

Lemma trimEnd_cons_nonspace c r :
  Js.is_white_space c = false → Js.trimEnd (String c r) ≠ "".
Proof.
  intros Hc. simpl. destruct (Js.trimEnd r); [rewrite Hc|]; discriminate.
Qed.

Lemma trimEnd_empty_iff s : Js.trimEnd s = "" ↔ Js.whitespace_only s.
Proof.
  induction s as [|c r IH]; [split; auto using whitespace_only_nil|].
  rewrite whitespace_only_cons, <- IH. simpl.
  destruct (Js.trimEnd r) eqn:E, (Js.is_white_space c) eqn:Hc;
    split; try discriminate; auto; intros [? ?]; discriminate.
Qed.

(** [trim] leaves nothing exactly of the strings that are empty or hold
    white space only. *)
Lemma trim_empty_iff s : Js.trim s = "" ↔ Js.whitespace_only s.
Proof.
  unfold Js.trim. induction s as [|c r IH]; [split; auto using whitespace_only_nil|].
  rewrite whitespace_only_cons. simpl.
  destruct (Js.is_white_space c) eqn:Hc.
  - rewrite IH. tauto.
  - split; [|intros [? _]; discriminate].
    intros H. by apply (trimEnd_cons_nonspace c r) in H.
Qed.

Lemma truthy_trim_false s :
  Js.truthy (Js.trim s) = false ↔ Js.whitespace_only s.
Proof.
  rewrite <- trim_empty_iff. unfold Js.truthy.
  rewrite negb_false_iff, bool_decide_eq_true. reflexivity.
Qed.

Lemma string_app_nil_l (s : string) : "" +:+ s = s.
Proof. reflexivity. Qed.

Lemma string_app_cons c (a b : string) :
  String c a +:+ b = String c (a +:+ b).
Proof. reflexivity. Qed.

Lemma string_app_eq_nil (a b : string) : a +:+ b = "" → a = "" ∧ b = "".
Proof.
  destruct a; [intros H; split; [reflexivity|exact H]|].
  rewrite string_app_cons. discriminate.
Qed.

Lemma prefix_nil s : String.prefix "" s = true.
Proof. by destruct s. Qed.

Lemma prefix_spec q s :
  String.prefix q s = true ↔ ∃ post, s = q +:+ post.
Proof.
  revert s. induction q as [|c q IH]; intros s.
  - rewrite prefix_nil. split; [intros _; by exists s|reflexivity].
  - destruct s as [|d s].
    { split; [discriminate|]. intros [post H].
      rewrite string_app_cons in H. discriminate. }
    cbn [String.prefix]. destruct (Ascii.ascii_dec c d) as [->|Hne].
    + rewrite IH. split; intros [post H]; exists post.
      * rewrite string_app_cons. congruence.
      * rewrite string_app_cons in H. congruence.
    + split; [discriminate|]. intros [post H].
      rewrite string_app_cons in H. congruence.
Qed.

(** [includes] finds exactly the substrings. *)
Lemma includes_spec s q :
  Js.includes s q = true ↔ ∃ pre post, s = pre +:+ q +:+ post.
Proof.
  induction s as [|c r IH].
  - cbn [Js.includes]. rewrite orb_false_r, prefix_spec. split.
    + intros [post H]. by exists "", post.
    + intros ([|d pre] & post & H); [by exists post|].
      rewrite string_app_cons in H. discriminate.
  - cbn [Js.includes]. rewrite orb_true_iff, prefix_spec, IH. split.
    + intros [[post H]|(pre & post & H)].
      * by exists "", post.
      * exists (String c pre), post. rewrite string_app_cons. congruence.
    + intros ([|d pre] & post & H).
      * left. by exists post.
      * right. exists pre, post. rewrite string_app_cons in H. congruence.
Qed.













End string_facts.

(** ** The task form and the store *)

Section store_facts.
Import Store.

Lemma truthy_true_iff s : Js.truthy s = true ↔ s ≠ "".
Proof.
  unfold Js.truthy. rewrite negb_true_iff, bool_decide_eq_false. reflexivity.
Qed.

Lemma or_else_truthy a b : a ≠ "" → Js.or_else a b = a.
Proof.
  intros H. unfold Js.or_else. by rewrite (proj2 (truthy_true_iff a) H).
Qed.

Lemma or_else_empty b : Js.or_else "" b = b.
Proof. reflexivity. Qed.

Lemma handleSubmit_blank f initialTask uuid now :
  Js.trim (f_title f) = "" →
  handleSubmit f initialTask uuid now =
    SetErrors {["title" := "Title is required."]}.
Proof.
  intros H. unfold handleSubmit. rewrite H. simpl.
  rewrite insert_empty. rewrite bool_decide_true; [reflexivity|].
  rewrite map_size_singleton. lia.
Qed.

Lemma handleSubmit_valid f initialTask uuid now :
  Js.trim (f_title f) ≠ "" →
  handleSubmit f initialTask uuid now = OnSave (newTask f initialTask uuid now).
Proof.
  intros H. unfold handleSubmit.
  rewrite (proj2 (truthy_true_iff _) H). simpl.
  rewrite bool_decide_false; [reflexivity|].
  rewrite map_size_empty. lia.
Qed.

(** Replacing tasks by one that carries their identifier keeps the
    identifiers where they are. *)
Lemma fmap_id_replace (e : Task) (ts : list Task) :
  id <$> ((λ task, if bool_decide (id task = id e) then e else task) <$> ts)
  = id <$> ts.
Proof.
  rewrite <- list_fmap_compose. apply list_fmap_ext. intros i x _. simpl.
  case_bool_decide; congruence.
Qed.

Lemma fmap_id_toggle (t : Task) (ts : list Task) :
  id <$> ((λ task, if bool_decide (id task = id t) then toggled task else task)
            <$> ts)
  = id <$> ts.
Proof.
  rewrite <- list_fmap_compose. apply list_fmap_ext. intros i x _. simpl.
  case_bool_decide; reflexivity.
Qed.

Lemma filteredTasks_sublist ts q : sublist (filteredTasks ts q) ts.
Proof.
  unfold filteredTasks. case_bool_decide; [reflexivity|].
  induction ts as [|t ts IH]; simpl; [constructor|].
  destruct (matches _ t); by constructor.
Qed.

Lemma filteredTasks_elem ts q t : t ∈ filteredTasks ts q → t ∈ ts.
Proof. apply sublist_subseteq, filteredTasks_sublist. Qed.

Lemma wf_task_toggled t : wf_task t → wf_task (toggled t).
Proof. intros H. exact H. Qed.

Lemma wf_task_newTask f initialTask uuid now :
  Js.trim (f_title f) ≠ "" → uuid ≠ "" → now ≠ "" →
  wf_task (newTask f initialTask uuid now).
Proof.
  intros Ht Hu Hn. unfold wf_task, newTask. simpl. split; [|split].
  - unfold Js.or_else. destruct (Js.truthy _) eqn:E; [|assumption].
    by apply truthy_true_iff.
  - unfold Js.or_else. destruct (Js.truthy _) eqn:E; [|assumption].
    by apply truthy_true_iff.
  - assumption.
Qed.

(** The task built for an edit keeps the identifier and the creation time
    of the task the form was opened with, when these are not empty. *)
Lemma newTask_edit f t0 uuid now :
  id t0 ≠ "" → createdAt t0 ≠ "" →
  newTask f (Some t0) uuid now =
    {| id := id t0; title := f_title f; description := Some (f_description f);
       priority := f_priority f; completed := completed t0;
       dueDate := if Js.truthy (f_dueDate f) then Some (f_dueDate f) else None;
       createdAt := createdAt t0 |}.
Proof.
  intros Hi Hc. unfold newTask. simpl.
  rewrite !or_else_truthy by assumption. by rewrite orb_false_r.
Qed.

Lemma newTask_create f uuid now :
  newTask f None uuid now =
    {| id := uuid; title := f_title f; description := Some (f_description f);
       priority := f_priority f; completed := false;
       dueDate := if Js.truthy (f_dueDate f) then Some (f_dueDate f) else None;
       createdAt := now |}.
Proof. reflexivity. Qed.

End store_facts.

Section session_facts.
Import Store.

Lemma submit_blank f uuid now st :
  Js.trim (f_title f) = "" →
  submit f uuid now st = (st, Some {["title" := "Title is required."]}).
Proof.
  intros H. unfold submit. by rewrite handleSubmit_blank.
Qed.

Lemma submit_create f uuid now st :
  Js.trim (f_title f) ≠ "" → editingTask st = None →
  submit f uuid now st =
    ({| tasks := newTask f None uuid now :: tasks st; showForm := false;
        editingTask := None; testStarted := testStarted st;
        searchQuery := searchQuery st |}, None).
Proof.
  intros H He. unfold submit. rewrite handleSubmit_valid by assumption.
  rewrite He. unfold onCancel, handleAddTask. simpl. by rewrite He.
Qed.

Lemma submit_update f uuid now st t0 :
  Js.trim (f_title f) ≠ "" → editingTask st = Some t0 →
  submit f uuid now st =
    ({| tasks :=
          (λ task,
             if bool_decide (id task = id (newTask f (Some t0) uuid now))
             then newTask f (Some t0) uuid now else task) <$> tasks st;
        showForm := false; editingTask := None;
        testStarted := testStarted st; searchQuery := searchQuery st |},
     None).
Proof.
  intros H He. unfold submit. rewrite handleSubmit_valid by assumption.
  rewrite He. reflexivity.
Qed.

(** Tasks of a list without repeated identifiers are told apart by their
    identifier. *)
Lemma NoDup_id_inj (ts : list Task) x y :
  NoDup (id <$> ts) → x ∈ ts → y ∈ ts → id x = id y → x = y.
Proof.
  intros Hnd Hx Hy Hid.
  apply list_elem_of_lookup in Hx as [i Hi].
  apply list_elem_of_lookup in Hy as [j Hj].
  assert (i = j) as ->.
  { apply (NoDup_lookup (id <$> ts) i j (id x)); [assumption|..];
      rewrite list_lookup_fmap; [rewrite Hi|rewrite Hj, Hid]; reflexivity. }
  congruence.
Qed.

Local Ltac store_simpl :=
  unfold store_inv;
  cbn [handle handleStartTest handleResetTest handleAddTask handleEditTask
       handleSaveEditedTask handleDeleteTask handleToggleComplete onCancel
       tasks showForm editingTask testStarted searchQuery fst snd].

Lemma store_inv_handle e st :
  store_inv st → enabled e st → store_inv (handle e st).
Proof.
  intros (Hnd & Hwf & Hed) Hen.
  destruct e as [| | |t|t|t|q| |f uuid now]; store_simpl.
  - split; [|split]; assumption.
  - split; [constructor|]. split; [constructor|].
    store_simpl. intros t0 H0. destruct (Hed t0 H0) as [Hw _].
    split; [assumption|]. intros x Hx. by apply elem_of_nil in Hx.
  - split; [assumption|]. split; [assumption|]. store_simpl. discriminate.
  - cbn [enabled] in Hen. apply filteredTasks_elem in Hen.
    split; [assumption|]. split; [assumption|]. store_simpl.
    intros t0 [= <-]. split.
    + rewrite Forall_forall in Hwf. by apply Hwf.
    + intros x Hx Hid. f_equal. by apply (NoDup_id_inj (tasks st)).
  - split; [|split]; store_simpl.
    + eapply sublist_NoDup; [exact Hnd|].
      apply fmap_sublist, sublist_filter.
    + rewrite Forall_forall in Hwf |- *. intros x Hx.
      apply list_elem_of_filter in Hx as [_ Hx]. by apply Hwf.
    + intros t0 H0. destruct (Hed t0 H0) as [Hw Hc].
      split; [assumption|]. intros x Hx.
      apply list_elem_of_filter in Hx as [_ Hx]. by apply Hc.
  - split; [|split]; store_simpl.
    + by rewrite fmap_id_toggle.
    + rewrite Forall_fmap. eapply Forall_impl; [exact Hwf|].
      intros x Hx. unfold compose. cbn beta. case_bool_decide; [apply wf_task_toggled|]; exact Hx.
    + intros t0 H0. destruct (Hed t0 H0) as [Hw Hc].
      split; [assumption|]. intros x Hx.
      apply list_elem_of_fmap in Hx as (y & -> & Hy).
      case_bool_decide; apply (Hc y Hy).
  - split; [|split]; assumption.
  - split; [|split]; assumption.
  - cbn [enabled] in Hen. destruct Hen as (_ & Hu & Hn & Hfresh & Hne).
    destruct (decide (Js.trim (f_title f) = "")) as [Hb|Hv].
    { rewrite submit_blank by assumption. store_simpl. split; [|split]; assumption. }
    destruct (editingTask st) as [t0|] eqn:He.
    + rewrite (submit_update f uuid now st t0) by assumption. store_simpl.
      destruct (Hed t0 eq_refl) as [(Hi & Hc & Ht) _].
      split; [|split]; store_simpl.
      * by rewrite fmap_id_replace.
      * rewrite Forall_fmap. eapply Forall_impl; [exact Hwf|].
        intros x Hx. unfold compose. cbn beta. case_bool_decide; [|exact Hx].
        by apply wf_task_newTask.
      * discriminate.
    + rewrite submit_create by assumption. store_simpl.
      split; [|split]; store_simpl.
      * rewrite fmap_cons. apply NoDup_cons. split; assumption.
      * apply Forall_cons. split; [|assumption].
        by apply wf_task_newTask.
      * discriminate.
Qed.

(** Every task of a session has a non-empty identifier, a non-empty
    creation time and a title with more than white space, and no two tasks
    share an identifier. *)
Lemma store_inv_reachable st : reachable st → store_inv st.
Proof.
  induction 1 as [|st _ IH|e st _ IH Hen].
  - split; [constructor|]. split; [constructor|]. discriminate.
  - destruct IH as (Hnd & Hwf & _).
    split; [assumption|]. split; [assumption|]. discriminate.
  - by apply store_inv_handle.
Qed.

End session_facts.

(** C3: submitting the form with a title that is empty or holds white space
    only (nothing is left of it after trimming) leaves the whole state of
    [Index], and with it the task list, as it was, and calls [setErrors] with
    the one entry "title"; the handler returns normally. *)
Theorem C3_blank_title_rejected (f : Store.Fields) (uuid now : string)
    (st : Store.Index) :
  Js.whitespace_only (Store.f_title f) →
  Js.trim (Store.f_title f) = "" ∧
  Store.submit f uuid now st =
    (st, Some {["title" := "Title is required."]}) ∧
  Store.tasks (Store.handle (Store.Submit f uuid now) st) = Store.tasks st ∧
  ({["title" := "Title is required."]} : gmap string string) !! "title" =
    Some "Title is required.".
Proof.
  intros H. apply trim_empty_iff in H.
  split; [assumption|]. split; [by apply submit_blank|].
  split; [|apply lookup_singleton_eq].
  cbn [Store.handle]. by rewrite submit_blank.
Qed.

Lemma C3_blank_title_rejected_witness :
  Js.whitespace_only "   " ∧
  Store.submit
    {| Store.f_title := "   "; Store.f_description := "d";
       Store.f_priority := Store.medium; Store.f_dueDate := "" |}
    "u" "n" Store.initial =
  (Store.initial, Some {["title" := "Title is required."]}).
Proof.
  assert (H : Js.whitespace_only "   ").
  { apply trim_empty_iff. reflexivity. }
  split; [exact H|].
  exact (proj1 (proj2 (C3_blank_title_rejected
    {| Store.f_title := "   "; Store.f_description := "d";
       Store.f_priority := Store.medium; Store.f_dueDate := "" |}
    "u" "n" Store.initial H))).
Defined.

(** C4: when the form for a new task ([editingTask] is [null]) is submitted
    with a title of which something is left after trimming, and [uuidv4()]
    returns an identifier that no task of the list carries, the new task
    gets that identifier, the current time as [createdAt] and the fields
    of the form; it is put in front of the list, the identifiers of the list
    stay pairwise distinct, and the filtered list for the empty query is the
    whole list with the new task, which carries the submitted title, at
    index 0. *)
Theorem C4_create_prepends (f : Store.Fields) (uuid now : string)
    (st : Store.Index) :
  Store.editingTask st = None →
  Js.trim (Store.f_title f) ≠ "" →
  uuid ∉ Store.id <$> Store.tasks st →
  let t :=
    {| Store.id := uuid; Store.title := Store.f_title f;
       Store.description := Some (Store.f_description f);
       Store.priority := Store.f_priority f; Store.completed := false;
       Store.dueDate :=
         if Js.truthy (Store.f_dueDate f) then Some (Store.f_dueDate f)
         else None;
       Store.createdAt := now |} in
  let st' := Store.handle (Store.Submit f uuid now) st in
  snd (Store.submit f uuid now st) = None ∧
  Store.tasks st' = t :: Store.tasks st ∧
  (∀ x, x ∈ Store.tasks st → Store.id x ≠ Store.id t) ∧
  (NoDup (Store.id <$> Store.tasks st) → NoDup (Store.id <$> Store.tasks st')) ∧
  Store.filteredTasks (Store.tasks st') "" = t :: Store.tasks st ∧
  Store.filteredTasks (Store.tasks st') "" !! 0%nat = Some t ∧
  Store.title t = Store.f_title f.
Proof.
  intros He Hv Hfresh t st'.
  assert (Hs : Store.submit f uuid now st =
    ({| Store.tasks := t :: Store.tasks st; Store.showForm := false;
        Store.editingTask := None; Store.testStarted := Store.testStarted st;
        Store.searchQuery := Store.searchQuery st |}, None)).
  { rewrite submit_create by assumption. by rewrite newTask_create. }
  assert (Ht : Store.tasks st' = t :: Store.tasks st).
  { unfold st'. cbn [Store.handle]. by rewrite Hs. }
  split; [by rewrite Hs|]. split; [exact Ht|]. split; [|split].
  - intros x Hx Hid. apply Hfresh. cbn [Store.id t] in Hid. rewrite <- Hid.
    by apply list_elem_of_fmap_2.
  - intros Hnd. rewrite Ht, fmap_cons. apply NoDup_cons. by split.
  - rewrite Ht. repeat split.
Qed.

Lemma C4_create_prepends_witness :
  Js.trim " Buy milk " ≠ "" ∧
  Store.tasks
    (Store.handle
       (Store.Submit
          {| Store.f_title := " Buy milk "; Store.f_description := "";
             Store.f_priority := Store.high; Store.f_dueDate := "" |}
          "u1" "2024-01-01T00:00:00.000Z") Store.initial) =
  [ {| Store.id := "u1"; Store.title := " Buy milk ";
       Store.description := Some ""; Store.priority := Store.high;
       Store.completed := false; Store.dueDate := None;
       Store.createdAt := "2024-01-01T00:00:00.000Z" |} ].
Proof.
  assert (Hv : Js.trim " Buy milk " ≠ "") by discriminate.
  split; [exact Hv|].
  exact (proj1 (proj2 (C4_create_prepends
    {| Store.f_title := " Buy milk "; Store.f_description := "";
       Store.f_priority := Store.high; Store.f_dueDate := "" |}
    "u1" "2024-01-01T00:00:00.000Z" Store.initial eq_refl Hv
    (not_elem_of_nil "u1")))).
Defined.



Section toggle_facts.
Import Store.

Lemma toggled_involutive x : toggled (toggled x) = x.
Proof. destruct x. unfold toggled. simpl. by rewrite negb_involutive. Qed.

Lemma toggle_lookup t st i x :
  tasks st !! i = Some x →
  tasks (handleToggleComplete t st) !! i =
    Some (if bool_decide (id x = id t) then toggled x else x).
Proof.
  intros H. cbn [handleToggleComplete tasks].
  by rewrite list_lookup_fmap, H.
Qed.

Lemma iter_toggled_fields n x :
  id (Nat.iter n toggled x) = id x ∧
  createdAt (Nat.iter n toggled x) = createdAt x ∧
  title (Nat.iter n toggled x) = title x ∧
  description (Nat.iter n toggled x) = description x ∧
  priority (Nat.iter n toggled x) = priority x ∧
  dueDate (Nat.iter n toggled x) = dueDate x.
Proof.
  induction n as [|n IH]; [repeat split|]. rewrite Nat.iter_succ. exact IH.
Qed.

Lemma toggles_lookup n t st i x :
  tasks st !! i = Some x →
  tasks (toggles n t st) !! i =
    Some (if bool_decide (id x = id t) then Nat.iter n toggled x else x).
Proof.
  intros H. induction n as [|n IH].
  - simpl. rewrite H. by case_bool_decide.
  - unfold toggles in *. rewrite Nat.iter_succ.
    rewrite (toggle_lookup t _ i _ IH).
    case_bool_decide as Hx.
    + destruct (iter_toggled_fields n x) as [Hid _].
      rewrite bool_decide_true by congruence. reflexivity.
    + by rewrite bool_decide_false.
Qed.

Lemma toggles_length n t st :
  length (tasks (toggles n t st)) = length (tasks st).
Proof.
  induction n as [|n IH]; [reflexivity|].
  unfold toggles in *. rewrite Nat.iter_succ.
  cbn [handleToggleComplete tasks]. by rewrite length_fmap.
Qed.

End toggle_facts.

(** C6: two clicks on the toggle of a task give back the list as it was,
    so the task's [completed] has its original value.  One click negates
    [completed] of the tasks that carry the clicked identifier and leaves
    the others as they are.  After any number of clicks every task is at its
    position with the identifier, creation time, title, description,
    priority and due date it had, and a task with another identifier is
    untouched; where identifiers are pairwise distinct, that is every
    task at another position than the clicked one.  For an identifier that
    no task carries the list does not change. *)
Theorem C6_toggle_complete (t : Store.Task) (st : Store.Index) :
  Store.tasks (Store.handleToggleComplete t (Store.handleToggleComplete t st))
    = Store.tasks st ∧
  (∀ i x, Store.tasks st !! i = Some x →
     Store.tasks (Store.handleToggleComplete t st) !! i =
       Some (if bool_decide (Store.id x = Store.id t)
             then Store.toggled x else x) ∧
     Store.completed (Store.toggled x) = negb (Store.completed x)) ∧
  (∀ n i x, Store.tasks st !! i = Some x →
     ∃ y, Store.tasks (Store.toggles n t st) !! i = Some y ∧
       Store.id y = Store.id x ∧ Store.createdAt y = Store.createdAt x ∧
       Store.title y = Store.title x ∧
       Store.description y = Store.description x ∧
       Store.priority y = Store.priority x ∧
       Store.dueDate y = Store.dueDate x ∧
       (Store.id x ≠ Store.id t → y = x)) ∧
  (∀ n, length (Store.tasks (Store.toggles n t st)) = length (Store.tasks st)) ∧
  (NoDup (Store.id <$> Store.tasks st) →
   ∀ n i j, Store.tasks st !! i = Some t → j ≠ i →
     Store.tasks (Store.toggles n t st) !! j = Store.tasks st !! j) ∧
  ((∀ x, x ∈ Store.tasks st → Store.id x ≠ Store.id t) →
     Store.tasks (Store.handleToggleComplete t st) = Store.tasks st).
Proof.
  split; [|split; [|split; [|split; [|split]]]].
  - cbn [Store.handleToggleComplete Store.tasks].
    rewrite <- list_fmap_compose. rewrite <- (list_fmap_id (Store.tasks st)) at 2.
    apply list_fmap_ext. intros i x _. unfold compose. cbn beta.
    destruct (decide (Store.id x = Store.id t)) as [Hx|Hx].
    + rewrite (bool_decide_true _ Hx).
      rewrite bool_decide_true by exact Hx. apply toggled_involutive.
    + rewrite (bool_decide_false _ Hx). by rewrite bool_decide_false.
  - intros i x H. split; [by apply toggle_lookup|reflexivity].
  - intros n i x H. rewrite (toggles_lookup n t st i x H).
    destruct (iter_toggled_fields n x) as (H1 & H2 & H3 & H4 & H5 & H6).
    case_bool_decide as Hx.
    + exists (Nat.iter n Store.toggled x). repeat split; try assumption.
      intros Hne. contradiction.
    + exists x. repeat split.
  - intros n. apply toggles_length.
  - intros Hnd n i j Hi Hne.
    destruct (Store.tasks st !! j) as [y|] eqn:Hj.
    + rewrite (toggles_lookup n t st j y Hj).
      rewrite bool_decide_false; [reflexivity|]. intros Hid. apply Hne.
      apply (NoDup_lookup (Store.id <$> Store.tasks st) j i (Store.id t));
        [assumption|..]; rewrite list_lookup_fmap;
        [rewrite Hj, <- Hid|rewrite Hi]; reflexivity.
    + apply lookup_ge_None. rewrite toggles_length.
      by apply lookup_ge_None.
  - intros Habs. cbn [Store.handleToggleComplete Store.tasks].
    rewrite <- (list_fmap_id (Store.tasks st)) at 2.
    apply list_fmap_ext. intros i x Hx. simpl.
    rewrite bool_decide_false; [reflexivity|].
    apply Habs. by eapply list_elem_of_lookup_2.
Qed.

Lemma C6_toggle_complete_witness :
  let t :=
    {| Store.id := "u1"; Store.title := "Buy milk";
       Store.description := None; Store.priority := Store.low;
       Store.completed := false; Store.dueDate := None;
       Store.createdAt := "c1" |} in
  let st :=
    {| Store.tasks := [t]; Store.showForm := false;
       Store.editingTask := None; Store.testStarted := true;
       Store.searchQuery := "" |} in
  Store.tasks st !! 0%nat = Some t ∧
  Store.tasks (Store.handleToggleComplete t st) !! 0%nat =
    Some (Store.toggled t).
Proof.
  intros t st. split; [reflexivity|].
  exact (proj1 (proj1 (proj2 (C6_toggle_complete t st)) 0%nat t eq_refl)).
Defined.

Section sample_facts.
Import Store.

Lemma sample_created_eq :
  sample_created =
    {| tasks := [sample_task]; showForm := false; editingTask := None;
       testStarted := false; searchQuery := "" |}.
Proof. vm_compute. reflexivity. Qed.

Lemma sample_created_reachable : reachable sample_created.
Proof.
  unfold sample_created. apply reachable_handle.
  - apply reachable_handle; [apply reachable_initial|exact I].
  - cbn. split; [reflexivity|]. split; [discriminate|].
    split; [discriminate|]. split; [apply not_elem_of_nil|discriminate].
Qed.

Lemma sample_editing_reachable : reachable sample_editing.
Proof.
  unfold sample_editing. apply reachable_handle.
  - apply sample_created_reachable.
  - cbn [enabled]. rewrite sample_created_eq. cbn [tasks searchQuery].
    apply list_elem_of_here.
Qed.

(** No handler stores a title of which trimming leaves nothing. *)
Lemma titles_handle e st :
  Forall (λ t, Js.trim (title t) ≠ "") (tasks st) →
  Forall (λ t, Js.trim (title t) ≠ "") (tasks (handle e st)).
Proof.
  intros H. destruct e as [| | |t|t|t|q| |f uuid now];
    cbn [handle handleStartTest handleResetTest handleEditTask
         handleDeleteTask handleToggleComplete onCancel tasks];
    try assumption.
  - constructor.
  - rewrite Forall_forall in H |- *. intros x Hx.
    apply list_elem_of_filter in Hx as [_ Hx]. by apply H.
  - rewrite Forall_fmap. eapply Forall_impl; [exact H|].
    intros x Hx. unfold compose. cbn beta. by case_bool_decide.
  - destruct (decide (Js.trim (f_title f) = "")) as [Hb|Hv].
    { by rewrite submit_blank. }
    destruct (editingTask st) as [t0|] eqn:He.
    + rewrite (submit_update f uuid now st t0) by assumption.
      cbn [fst tasks]. rewrite Forall_fmap. eapply Forall_impl; [exact H|].
      intros x Hx. unfold compose. cbn beta. by case_bool_decide.
    + rewrite submit_create by assumption. cbn [fst tasks].
      apply Forall_cons. by split.
Qed.

End sample_facts.

(** C5: the code at the failing input.  The stored text is the
    serialization of a list whose one task has the empty string as its
    identifier, and the load effect installs that list.  When the task is
    edited and the form is submitted with the title [b], the form takes the
    empty identifier for a missing one and gives the edited task the
    identifier that [uuidv4()] returns; [handleSaveEditedTask] then finds no
    task to replace, the list stays as it was and the edit is lost. *)
Theorem C5_update_empty_id_lost :
  let t :=
    {| Store.id := ""; Store.title := "a"; Store.description := None;
       Store.priority := Store.medium; Store.completed := false;
       Store.dueDate := None; Store.createdAt := "c" |} in
  let st :=
    Store.handleEditTask t
      {| Store.tasks := [t]; Store.showForm := false;
         Store.editingTask := None; Store.testStarted := true;
         Store.searchQuery := "" |} in
  let f :=
    {| Store.f_title := "b"; Store.f_description := "";
       Store.f_priority := Store.medium; Store.f_dueDate := "" |} in
  let st' := Store.handle (Store.Submit f "u" "n") st in
  Load.load (Load.Item (Save.stringify [t])) =
    (Save.value_of_tasks [t], false) ∧
  Store.tasks st !! 0%nat = Some t ∧
  Store.editingTask st = Some t ∧
  Js.trim (Store.f_title f) ≠ "" ∧
  Store.handleSubmit f (Some t) "u" "n" =
    Store.OnSave
      {| Store.id := "u"; Store.title := "b"; Store.description := Some "";
         Store.priority := Store.medium; Store.completed := false;
         Store.dueDate := None; Store.createdAt := "c" |} ∧
  Store.tasks st' = [t] ∧
  ¬ (∃ y, Store.tasks st' !! 0%nat = Some y ∧
          Store.id y = Store.id t ∧ Store.title y = Store.f_title f).
Proof.
  intros t st f st'.
  assert (Ht : Store.tasks st' = [t]) by (vm_compute; reflexivity).
  split; [vm_compute; reflexivity|].
  split; [reflexivity|]. split; [reflexivity|]. split; [discriminate|].
  split; [vm_compute; reflexivity|].
  split; [exact Ht|]. rewrite Ht. intros (y & [= <-] & _ & H).
  discriminate H.
Qed.

(** C10: the task that the form hands to [onSave], for a new task and for
    an edit alike, carries the title exactly as it was typed, and something
    is left of that title after trimming.  The list then holds that title
    as it was typed: after a create, in the task at the head of the list;
    after an update of a task whose identifier is not empty, in every task
    that carries the identifier of the edited one.  Every handler, and so
    every sequence of events, keeps the property that something is left of
    each stored title after trimming.  The stored title is not trimmed: the
    title typed as [ Buy milk ], with a space on either side, is stored
    with both spaces. *)
Theorem C10_title_stored_verbatim :
  (∀ f initialTask uuid now t,
     Store.handleSubmit f initialTask uuid now = Store.OnSave t →
     Store.title t = Store.f_title f ∧ Js.trim (Store.title t) ≠ "") ∧
  (∀ f uuid now st,
     Store.editingTask st = None →
     Js.trim (Store.f_title f) ≠ "" →
     ∃ t, Store.tasks (Store.handle (Store.Submit f uuid now) st) =
            t :: Store.tasks st ∧
          Store.title t = Store.f_title f) ∧
  (∀ f uuid now st t0 i x,
     Store.editingTask st = Some t0 →
     Store.id t0 ≠ "" →
     Js.trim (Store.f_title f) ≠ "" →
     Store.tasks st !! i = Some x →
     Store.id x = Store.id t0 →
     ∃ y, Store.tasks (Store.handle (Store.Submit f uuid now) st) !! i =
            Some y ∧
          Store.id y = Store.id x ∧ Store.title y = Store.f_title f) ∧
  (∀ es st,
     Forall (λ t, Js.trim (Store.title t) ≠ "") (Store.tasks st) →
     Forall (λ t, Js.trim (Store.title t) ≠ "")
       (Store.tasks (foldl (λ s e, Store.handle e s) st es))) ∧
  (Store.title <$>
     Store.tasks
       (Store.handle (Store.Submit Store.sample_fields "u1" "n1")
          (Store.handle Store.ClickAddTask Store.initial)) = [" Buy milk "] ∧
   Js.trim " Buy milk " = "Buy milk").
Proof.
  split; [|split; [|split; [|split]]].
  - intros f initialTask uuid now t H.
    destruct (decide (Js.trim (Store.f_title f) = "")) as [Hb|Hv].
    + rewrite handleSubmit_blank in H by assumption. discriminate H.
    + rewrite handleSubmit_valid in H by assumption.
      injection H as <-. split; [reflexivity|exact Hv].
  - intros f uuid now st He Hv.
    exists (Store.newTask f None uuid now).
    cbn [Store.handle]. rewrite submit_create by assumption.
    split; reflexivity.
  - intros f uuid now st t0 i x He Hi Hv Hx Hid.
    assert (Hn : Store.id (Store.newTask f (Some t0) uuid now) = Store.id t0).
    { unfold Store.newTask. cbn [Store.id]. by apply or_else_truthy. }
    set (e := Store.newTask f (Some t0) uuid now) in *.
    exists e. cbn [Store.handle].
    rewrite (submit_update f uuid now st t0) by assumption.
    fold e. cbn [fst Store.tasks]. rewrite list_lookup_fmap, Hx.
    cbn [fmap option_fmap option_map].
    rewrite bool_decide_true by congruence.
    split; [reflexivity|]. split; [congruence|reflexivity].
  - intros es. induction es as [|e es IH]; intros st H; [exact H|].
    cbn [foldl]. apply IH. by apply titles_handle.
  - split; reflexivity.
Qed.

(** The task of the sample session is edited and the title typed as
    [  Buy oat milk], with two spaces in front: the list holds it so. *)
Lemma C10_title_stored_verbatim_witness :
  let f :=
    {| Store.f_title := "  Buy oat milk"; Store.f_description := "";
       Store.f_priority := Store.low; Store.f_dueDate := "" |} in
  Store.editingTask Store.sample_editing = Some Store.sample_task ∧
  Store.id Store.sample_task ≠ "" ∧
  Js.trim (Store.f_title f) ≠ "" ∧
  Store.tasks Store.sample_editing !! 0%nat = Some Store.sample_task ∧
  ∃ y, Store.tasks (Store.handle (Store.Submit f "u2" "n2")
                      Store.sample_editing) !! 0%nat = Some y ∧
       Store.id y = "u1" ∧ Store.title y = "  Buy oat milk".
Proof.
  intros f.
  assert (Hi : Store.id Store.sample_task ≠ "") by discriminate.
  assert (Hv : Js.trim (Store.f_title f) ≠ "") by discriminate.
  split; [reflexivity|]. split; [exact Hi|]. split; [exact Hv|].
  split; [reflexivity|].
  exact (proj1 (proj2 (proj2 C10_title_stored_verbatim))
    f "u2" "n2" Store.sample_editing Store.sample_task 0%nat
    Store.sample_task eq_refl Hi Hv eq_refl eq_refl).
Defined.

(** ** Loading *)

(** The text that a session has saved is a serialization of a task list,
    and the load effect installs what it parses to. *)
Lemma sample_storedTasks_loaded :
  Load.valid_serialization Load.sample_storedTasks ∧
  ∃ task, Load.load (Load.Item Load.sample_storedTasks) =
            (Json.Array [task], false) ∧
          Load.is_task task = true ∧
          Load.field "title" (match task with
                              | Json.Object members => members
                              | _ => []
                              end) =
            Some (Json.Str (Load.units " Buy milk ")).
Proof.
  split.
  - eexists. split; [vm_compute; reflexivity|]. vm_compute. reflexivity.
  - eexists. split; [vm_compute; reflexivity|]. split; vm_compute; reflexivity.
Qed.

(** C8: the code at the failing input.  The stored texts [{}] and [null]
    are not serializations of a task list; [JSON.parse] accepts them, and
    the load effect makes the value they parse to, an object and [null], the
    value of [tasks], where the claim has the empty list.  Nothing is thrown
    or logged by the effect. *)
Theorem C8_load_object_installed :
  ¬ Load.valid_serialization "{}" ∧
  Load.load (Load.Item "{}") = (Json.Object [], false) ∧
  fst (Load.load (Load.Item "{}")) ≠ Json.Array [] ∧
  ¬ Load.valid_serialization "null" ∧
  Load.load (Load.Item "null") = (Json.Null, false) ∧
  fst (Load.load (Load.Item "null")) ≠ Json.Array [].
Proof.
  repeat split.
  - intros (v & Hv & Hl). vm_compute in Hv. injection Hv as <-.
    discriminate Hl.
  - vm_compute. discriminate.
  - intros (v & Hv & Hl). vm_compute in Hv. injection Hv as <-.
    discriminate Hl.
  - vm_compute. discriminate.
Qed.

(** The cases of the load effect.  [tasks] stays the empty list when nothing
    is stored, when the stored text is empty, when [JSON.parse] rejects it
    and when reading the storage throws; [console.error] is called in the
    last two cases and in no other.  The effect has no check of the value
    that [JSON.parse] returns. *)
Lemma load_cases (r : Load.getItem_result) :
  (r = Load.Throws ∨ r = Load.Missing ∨ r = Load.Item "" ∨
   (∃ s, r = Load.Item s ∧ Json.parse s = None) →
   fst (Load.load r) = Json.Array []) ∧
  (∀ s v, r = Load.Item s → s ≠ "" → Json.parse s = Some v →
     Load.load r = (v, false)) ∧
  (snd (Load.load r) = true ↔
   r = Load.Throws ∨ ∃ s, r = Load.Item s ∧ s ≠ "" ∧ Json.parse s = None).
Proof.
  split; [|split].
  - intros [->|[->|[->|(s & -> & Hs)]]]; try reflexivity.
    unfold Load.load, Load.try_block. rewrite Hs.
    by destruct (Js.truthy s).
  - intros s v -> Hne Hs. unfold Load.load, Load.try_block.
    rewrite (proj2 (truthy_true_iff s) Hne), Hs. reflexivity.
  - destruct r as [| |s]; unfold Load.load, Load.try_block.
    + split; [by left|reflexivity].
    + split; [discriminate|]. intros [H|(s & H & _)]; discriminate H.
    + destruct (Js.truthy s) eqn:Ht.
      * apply truthy_true_iff in Ht.
        destruct (Json.parse s) as [v|] eqn:Hs; simpl.
        -- split; [discriminate|].
           intros [H|(s' & [= <-] & _ & H)]; [discriminate H|congruence].
        -- split; [|reflexivity]. intros _. right. by exists s.
      * simpl. split; [discriminate|].
        intros [H|(s' & [= <-] & Hne & _)]; [discriminate H|].
        unfold Js.truthy in Ht. apply negb_false_iff in Ht.
        by apply bool_decide_eq_true in Ht.
Qed.

(** * Further properties *)

(** ** The timer between creation and unmount *)

Section countdown_facts.
Import Timer.

Lemma countdown_inv_step n e s :
  1 ≤ n → countdown_inv n s → countdown_inv n (step n e s).
Proof.
  intros Hn H. unfold countdown_inv in H. destruct e; cbn [step].
  - unfold countdown_inv, startTimer.
    destruct (timerRef s) as [h|] eqn:E.
    + rewrite E. exact H.
    + destruct H as (Hi & _ & Ht). cbn [timerRef intervals isTimeUp timeRemaining].
      rewrite Hi. left. repeat split; lia.
  - unfold countdown_inv, resetTimer.
    cbn [timerRef intervals isTimeUp timeRemaining].
    destruct (timerRef s) as [h|].
    + destruct H as [(-> & _)|(-> & _)]; [rewrite clearInterval_self|]; auto.
    + destruct H as (-> & _). auto.
  - destruct (timerRef s) as [h|] eqn:E.
    + destruct H as [(Hi & Hu & Ht)|(Hi & Hu & Ht)].
      * rewrite (second_single s h Hi). unfold countdown_inv, tick.
        case_bool_decide; cbn [timerRef intervals isTimeUp timeRemaining];
          rewrite E.
        -- rewrite Hi, clearInterval_self. right. auto.
        -- left. repeat split; [assumption..|lia|lia].
      * rewrite second_idle by assumption. unfold countdown_inv.
        rewrite E. right. auto.
    + destruct H as (Hi & Hu & Ht). rewrite second_idle by assumption.
      unfold countdown_inv. rewrite E. auto.
Qed.

Lemma countdown_inv_reachable n s :
  1 ≤ n → reachable n s → countdown_inv n s.
Proof.
  intros Hn. induction 1 as [|e s _ IH].
  - repeat split.
  - by apply countdown_inv_step.
Qed.

End countdown_facts.

(** X1: for a hook created with a positive initial time, in every state it
    can be in, [timeRemaining] lies between zero and the initial time,
    [isTimeUp] holds exactly when [timeRemaining] is zero, at most one
    interval is active and then it is the one whose handle the ref holds,
    and while it is active [timeRemaining] is at least one. *)
Theorem X1_timer_invariant (n : Z) (s : Timer.state) :
  1 ≤ n → Timer.reachable n s →
  0 ≤ Timer.timeRemaining s ≤ n ∧
  (Timer.isTimeUp s = true ↔ Timer.timeRemaining s = 0) ∧
  (Timer.intervals s = [] ∨
   ∃ h, Timer.timerRef s = Some h ∧ Timer.intervals s = [h]) ∧
  (Timer.running s = true →
   1 ≤ Timer.timeRemaining s ∧ Timer.isTimeUp s = false).
Proof.
  intros Hn Hr. pose proof (countdown_inv_reachable n s Hn Hr) as H.
  unfold Timer.countdown_inv in H. unfold Timer.running.
  destruct (Timer.timerRef s) as [h|].
  - destruct H as [(Hi & Hu & Ht)|(Hi & Hu & Ht)]; rewrite Hi, Hu.
    + split; [lia|]. split; [split; [discriminate|lia]|].
      split; [right; by exists h|]. intros _. split; [lia|reflexivity].
    + split; [lia|]. split; [split; auto|]. split; [by left|].
      intros H. discriminate H.
  - destruct H as (Hi & Hu & Ht). rewrite Hi, Hu.
    split; [lia|]. split; [split; [discriminate|lia]|]. split; [by left|].
    intros H. discriminate H.
Qed.

Lemma X1_timer_invariant_witness :
  1 ≤ 3600 ∧ Timer.reachable 3600 Timer.expired_state ∧
  0 ≤ Timer.timeRemaining Timer.expired_state ≤ 3600.
Proof.
  split; [lia|]. split; [apply expired_state_reachable|].
  exact (proj1 (X1_timer_invariant 3600 Timer.expired_state ltac:(lia)
                  expired_state_reachable)).
Defined.



Section restart_facts.
Import Timer.



End restart_facts.



(** X4: the cleanup that runs when the component unmounts leaves no
    interval behind, in whatever state the hook is, so that no callback runs
    afterwards: the state stays as it is however many seconds pass. *)
Theorem X4_cleanup_stops_ticks (n : Z) (s : Timer.state) (k : nat) :
  Timer.reachable n s →
  Timer.intervals (Timer.cleanup s) = [] ∧
  Timer.timeRemaining (Timer.cleanup s) = Timer.timeRemaining s ∧
  Timer.isTimeUp (Timer.cleanup s) = Timer.isTimeUp s ∧
  Timer.seconds k (Timer.cleanup s) = Timer.cleanup s.
Proof.
  intros Hr. pose proof (timer_inv_reachable n s Hr) as H.
  unfold Timer.timer_inv in H.
  assert (Hi : Timer.intervals (Timer.cleanup s) = []).
  { unfold Timer.cleanup. cbn [Timer.intervals].
    destruct (Timer.timerRef s) as [h|].
    - destruct H as [[-> _]|[-> _]]; [apply clearInterval_self|reflexivity].
    - by destruct H as [-> _]. }
  split; [exact Hi|]. split; [reflexivity|]. split; [reflexivity|].
  induction k as [|k IH]; [reflexivity|].
  unfold Timer.seconds in *. rewrite Nat.iter_succ, IH.
  by apply second_idle.
Qed.

Lemma X4_cleanup_stops_ticks_witness :
  Timer.reachable 3600 (Timer.startTimer (Timer.init 3600)) ∧
  Timer.intervals (Timer.cleanup (Timer.startTimer (Timer.init 3600))) = [].
Proof.
  assert (Hr : Timer.reachable 3600 (Timer.startTimer (Timer.init 3600))).
  { apply (Timer.reachable_step 3600 Timer.Start). constructor. }
  split; [exact Hr|].
  exact (proj1 (X4_cleanup_stops_ticks 3600 _ 0 Hr)).
Defined.

(** ** [formatTime] read back *)

Section format_inj_facts.

Lemma string_length_app (a b : string) :
  String.length (a +:+ b) = (String.length a + String.length b)%nat.
Proof.
  induction a as [|c a IH]; [reflexivity|].
  rewrite string_app_cons. simpl. by rewrite IH.
Qed.

Lemma string_app_inj (a a' b b' : string) :
  String.length a = String.length a' → a +:+ b = a' +:+ b' → a = a' ∧ b = b'.
Proof.
  revert a'. induction a as [|c a IH]; intros [|c' a'] Hl H;
    try discriminate Hl.
  - by split.
  - rewrite !string_app_cons in H. injection H as -> H.
    injection Hl as Hl. destruct (IH a' Hl H) as [-> ->]. by split.
Qed.

Lemma digit_char_inj a b :
  0 ≤ a ≤ 9 → 0 ≤ b ≤ 9 → digit_char a = digit_char b → a = b.
Proof.
  intros Ha Hb H. unfold digit_char in H.
  apply (f_equal N_of_ascii) in H.
  rewrite !N_ascii_embedding in H by lia. lia.
Qed.

(** The padded numeral determines the number. *)
Lemma padded_inj a b :
  0 ≤ a → 0 ≤ b →
  Js.padStart (Js.String_of a) 2 "0" = Js.padStart (Js.String_of b) 2 "0" →
  a = b.
Proof.
  intros Ha Hb H.
  assert (Hbig : ∀ m, 100 ≤ m →
    Js.padStart (Js.String_of m) 2 "0" = Js.String_of m ∧
    (3 ≤ String.length (Js.String_of m))%nat).
  { intros m Hm. pose proof (String_of_length_ge_3 m Hm).
    split; [apply padStart_long; lia|assumption]. }
  assert (Hsmall : ∀ m, 0 ≤ m < 100 →
    0 ≤ m `div` 10 ≤ 9 ∧ 0 ≤ m `mod` 10 ≤ 9).
  { intros m Hm. pose proof (Z.mod_pos_bound m 10 ltac:(lia)).
    split; [|lia]. split; [apply Z.div_pos; lia|].
    apply Z.lt_succ_r. apply Z.div_lt_upper_bound; lia. }
  destruct (decide (a < 100)) as [Ha'|Ha'], (decide (b < 100)) as [Hb'|Hb'].
  - rewrite !padStart_two_digits in H by lia.
    injection H as H1 H2.
    destruct (Hsmall a ltac:(lia)) as [? ?], (Hsmall b ltac:(lia)) as [? ?].
    apply digit_char_inj in H1; [|assumption..].
    apply digit_char_inj in H2; [|assumption..].
    rewrite (Z.div_mod a 10), (Z.div_mod b 10) by lia. lia.
  - destruct (Hbig b ltac:(lia)) as [Hp Hl].
    rewrite padStart_two_digits in H by lia. rewrite Hp in H.
    rewrite <- H in Hl. simpl in Hl. lia.
  - destruct (Hbig a ltac:(lia)) as [Hp Hl].
    rewrite (padStart_two_digits b) in H by lia. rewrite Hp in H.
    rewrite H in Hl. simpl in Hl. lia.
  - destruct (Hbig a ltac:(lia)) as [Hpa _], (Hbig b ltac:(lia)) as [Hpb _].
    rewrite Hpa, Hpb in H. unfold Js.String_of in H.
    by apply (inj pretty) in H.
Qed.

Lemma formatTime_parts s :
  0 ≤ s →
  formatTime s =
    Js.padStart (Js.String_of (s `div` 60)) 2 "0" +:+ ":" +:+
    Js.padStart (Js.String_of (s `mod` 60)) 2 "0" ∧
  String.length (Js.padStart (Js.String_of (s `mod` 60)) 2 "0") = 2%nat.
Proof.
  intros Hs. unfold formatTime.
  rewrite (Z.rem_mod_nonneg s 60) by lia. split; [reflexivity|].
  pose proof (Z.mod_pos_bound s 60 ltac:(lia)).
  rewrite padStart_two_digits by lia. reflexivity.
Qed.

End format_inj_facts.

(** X5: the display tells the remaining times apart.  For two different
    whole numbers of seconds from 0 to [2^53 - 1], the range in which
    [formatTime] is computed without rounding, the texts differ. *)
Theorem X5_formatTime_injective (s1 s2 : Z) :
  0 ≤ s1 < 2 ^ 53 → 0 ≤ s2 < 2 ^ 53 → s1 ≠ s2 →
  formatTime s1 ≠ formatTime s2.
Proof.
  intros [H1 _] [H2 _] Hne H. apply Hne.
  destruct (formatTime_parts s1 H1) as [E1 L1].
  destruct (formatTime_parts s2 H2) as [E2 L2].
  rewrite E1, E2 in H.
  assert (Hlen : String.length (Js.padStart (Js.String_of (s1 `div` 60)) 2 "0")
               = String.length (Js.padStart (Js.String_of (s2 `div` 60)) 2 "0")).
  { apply (f_equal String.length) in H.
    rewrite !string_length_app, L1, L2 in H. lia. }
  apply string_app_inj in H as [Hm H]; [|exact Hlen].
  apply string_app_inj in H as [_ Hs]; [|reflexivity].
  apply padded_inj in Hm;
    [|apply Z.div_pos; lia|apply Z.div_pos; lia].
  pose proof (Z.mod_pos_bound s1 60 ltac:(lia)).
  pose proof (Z.mod_pos_bound s2 60 ltac:(lia)).
  apply padded_inj in Hs; [|lia..].
  rewrite (Z.div_mod s1 60), (Z.div_mod s2 60) by lia. lia.
Qed.

Lemma X5_formatTime_injective_witness :
  0 ≤ 59 < 2 ^ 53 ∧ 0 ≤ 60 < 2 ^ 53 ∧ 59 ≠ 60 ∧
  formatTime 59 = "00:59" ∧ formatTime 60 = "01:00" ∧
  formatTime 59 ≠ formatTime 60.
Proof.
  assert (H1 : 0 ≤ 59 < 2 ^ 53) by (split; [lia|reflexivity]).
  assert (H2 : 0 ≤ 60 < 2 ^ 53) by (split; [lia|reflexivity]).
  assert (Hne : 59 ≠ 60) by lia.
  split; [exact H1|]. split; [exact H2|]. split; [exact Hne|].
  split; [reflexivity|]. split; [reflexivity|].
  exact (X5_formatTime_injective 59 60 H1 H2 Hne).
Defined.

(** ** Deleting, editing and searching *)

Section list_facts.
Import Store.

Lemma filter_all {A} (P : A → Prop) `{∀ x, Decision (P x)} (l : list A) :
  (∀ x, x ∈ l → P x) → filter P l = l.
Proof.
  induction l as [|x l IH]; intros Hl; [reflexivity|].
  rewrite filter_cons_True by (apply Hl; left).
  f_equal. apply IH. intros y Hy. apply Hl. by right.
Qed.

Lemma delete_one (t : Task) (ts : list Task) :
  NoDup (id <$> ts) → t ∈ ts →
  S (length (filter (λ task, id task ≠ id t) ts)) = length ts.
Proof.
  induction ts as [|x ts IH]; intros Hnd Ht; [by apply elem_of_nil in Ht|].
  rewrite fmap_cons in Hnd. apply NoDup_cons in Hnd as [Hx Hnd].
  destruct (decide (id x = id t)) as [Hid|Hid].
  - rewrite filter_cons_False by (intros H; by apply H).
    rewrite filter_all; [reflexivity|].
    intros y Hy Hyt. apply Hx. rewrite Hid, <- Hyt.
    by apply list_elem_of_fmap_2.
  - rewrite filter_cons_True by exact Hid. simpl. f_equal. apply IH.
    + exact Hnd.
    + apply elem_of_cons in Ht as [->|Ht]; [contradiction|exact Ht].
Qed.

Lemma substring_all (n : nat) (s : string) :
  (String.length s ≤ n)%nat → String.substring 0 n s = s.
Proof.
  revert n. induction s as [|c s IH]; intros n Hn.
  - by destruct n.
  - destruct n as [|n]; simpl in Hn; [lia|].
    simpl. f_equal. apply IH. lia.
Qed.

Lemma List_filter_fmap {A} (p : A → bool) (f : A → A) (l : list A) :
  (∀ x, p (f x) = p x) → List.filter p (f <$> l) = f <$> List.filter p l.
Proof.
  intros H. induction l as [|x l IH]; [reflexivity|].
  rewrite fmap_cons. simpl. rewrite H. destruct (p x); simpl; by rewrite IH.
Qed.

Lemma List_filter_filter_comm {A} (p : A → bool) (P : A → Prop)
    `{∀ x, Decision (P x)} (l : list A) :
  List.filter p (filter P l) = filter P (List.filter p l).
Proof.
  induction l as [|x l IH]; [reflexivity|].
  rewrite filter_cons. simpl.
  destruct (decide (P x)) as [HP|HP], (p x) eqn:Hp; simpl;
    rewrite ?Hp, ?filter_cons, ?decide_True, ?decide_False by assumption;
    by rewrite IH.
Qed.

Lemma List_filter_refine {A} (p q : A → bool) (l : list A) :
  (∀ x, q x = true → p x = true) →
  List.filter q (List.filter p l) = List.filter q l.
Proof.
  intros H. induction l as [|x l IH]; [reflexivity|]. simpl.
  destruct (p x) eqn:Hp; simpl.
  - destruct (q x); by rewrite IH.
  - destruct (q x) eqn:Hq; [|exact IH].
    apply H in Hq. congruence.
Qed.

Lemma List_filter_sublist {A} (p : A → bool) (l : list A) :
  sublist (List.filter p l) l.
Proof.
  induction l as [|x l IH]; simpl; [constructor|].
  destruct (p x); by constructor.
Qed.

End list_facts.

(** X6: deleting a task removes every task that carries its identifier and
    no other, keeps the order of the rest, and need not be repeated: a
    second deletion changes nothing, as does the deletion of an identifier
    that no task carries.  Where identifiers are pairwise distinct and the
    task is in the list, the list gets shorter by exactly one. *)
Theorem X6_delete (t : Store.Task) (st : Store.Index) :
  let ts' := Store.tasks (Store.handleDeleteTask t st) in
  (∀ x, x ∈ ts' ↔ x ∈ Store.tasks st ∧ Store.id x ≠ Store.id t) ∧
  sublist ts' (Store.tasks st) ∧
  Store.tasks (Store.handleDeleteTask t (Store.handleDeleteTask t st)) = ts' ∧
  ((∀ x, x ∈ Store.tasks st → Store.id x ≠ Store.id t) →
     ts' = Store.tasks st) ∧
  (NoDup (Store.id <$> Store.tasks st) → t ∈ Store.tasks st →
     S (length ts') = length (Store.tasks st)).
Proof.
  intros ts'. unfold ts'. cbn [Store.handleDeleteTask Store.tasks].
  split; [|split; [|split; [|split]]].
  - intros x. rewrite list_elem_of_filter. tauto.
  - apply sublist_filter.
  - apply filter_all. intros x Hx.
    by apply list_elem_of_filter in Hx as [Hx _].
  - intros H. by apply filter_all.
  - apply delete_one.
Qed.

Lemma X6_delete_witness :
  NoDup (Store.id <$> Store.tasks Store.sample_created) ∧
  Store.sample_task ∈ Store.tasks Store.sample_created ∧
  S (length (Store.tasks
       (Store.handleDeleteTask Store.sample_task Store.sample_created))) =
    length (Store.tasks Store.sample_created).
Proof.
  assert (Hnd : NoDup (Store.id <$> Store.tasks Store.sample_created)).
  { apply (bool_decide_unpack _). vm_compute. exact I. }
  assert (Hin : Store.sample_task ∈ Store.tasks Store.sample_created).
  { apply (bool_decide_unpack _). vm_compute. exact I. }
  split; [exact Hnd|]. split; [exact Hin|].
  exact (proj2 (proj2 (proj2 (proj2
    (X6_delete Store.sample_task Store.sample_created)))) Hnd Hin).
Defined.

(** X7: when no form is open and Edit is clicked on a task, the form comes
    up with the fields of that task, and submitting it untouched gives the
    task back as it was, so the list does not change and the form closes;
    provided the task is what the form produces: something is left of its
    title after trimming, its identifier and creation time are not empty, it
    has a description, and its due date, if any, is a non-empty text of at
    most ten code units (longer ones the form cuts off).  When a form is
    already open, it is not mounted anew: it keeps the fields it holds, and
    submitting it writes those fields, not the clicked task's, into every
    task that carries the identifier of the clicked task. *)
Theorem X7_edit_untouched (t : Store.Task) (d : string) (uuid now : string)
    (st : Store.Index) :
  Js.trim (Store.title t) ≠ "" →
  Store.id t ≠ "" → Store.createdAt t ≠ "" →
  Store.description t = Some d →
  (∀ dd, Store.dueDate t = Some dd →
     dd ≠ "" ∧ (String.length dd ≤ 10)%nat) →
  Store.testStarted st = true →
  (Store.showForm st = false →
     let p := Form.click (Store.ClickEdit t) (Form.mount st) in
     Form.fields (Form.mount st) = None ∧
     Form.fields p = Some (Store.initialFields (Some t)) ∧
     (t ∈ Store.tasks st → NoDup (Store.id <$> Store.tasks st) →
      Store.tasks (Form.index (Form.submit uuid now p)) = Store.tasks st ∧
      Form.fields (Form.submit uuid now p) = None)) ∧
  (∀ f, Store.showForm st = true →
     Js.trim (Store.f_title f) ≠ "" →
     let p := Form.click (Store.ClickEdit t)
                {| Form.index := st; Form.fields := Some f |} in
     Form.fields p = Some f ∧
     ∀ i x, Store.tasks st !! i = Some x → Store.id x = Store.id t →
       ∃ y, Store.tasks (Form.index (Form.submit uuid now p)) !! i = Some y ∧
            Store.id y = Store.id t ∧ Store.title y = Store.f_title f).
Proof.
  intros Ht Hi Hc Hd Hdue Hst.
  assert (Hnew :
    Store.newTask (Store.initialFields (Some t)) (Some t) uuid now = t).
  { rewrite newTask_edit by assumption.
    destruct t as [i ti de p c du cr]. cbn in *. subst de. f_equal.
    destruct du as [dd|]; [|reflexivity].
    destruct (Hdue dd eq_refl) as [Hne Hlen].
    rewrite (proj2 (truthy_true_iff dd) Hne).
    rewrite substring_all by exact Hlen.
    by rewrite (proj2 (truthy_true_iff dd) Hne). }
  assert (Hopen : ∀ before,
    Form.click (Store.ClickEdit t)
      {| Form.index := st; Form.fields := before |} =
    {| Form.index := Store.handleEditTask t st;
       Form.fields := Some (default (Store.initialFields (Some t)) before) |}).
  { intros before. unfold Form.click, Form.render, Form.rendered.
    cbn [Form.index Form.fields Store.handle Store.handleEditTask
         Store.testStarted Store.showForm Store.editingTask].
    rewrite Hst. by destruct before. }
  assert (Hsubmit : ∀ f,
    Js.trim (Store.f_title f) ≠ "" →
    Form.submit uuid now
      {| Form.index := Store.handleEditTask t st; Form.fields := Some f |} =
    {| Form.index :=
         fst (Store.submit f uuid now (Store.handleEditTask t st));
       Form.fields := None |}).
  { intros f Hf. unfold Form.submit, Form.click, Form.render, Form.rendered.
    cbn [Form.index Form.fields Store.handle].
    rewrite (submit_update f uuid now (Store.handleEditTask t st) t);
      [|exact Hf|reflexivity].
    cbn [fst Store.testStarted Store.showForm]. by rewrite andb_false_r. }
  split.
  - intros Hsf p.
    assert (Hm : Form.mount st = {| Form.index := st; Form.fields := None |}).
    { unfold Form.mount, Form.render, Form.rendered.
      by rewrite Hsf, andb_false_r. }
    assert (Hp : p = {| Form.index := Store.handleEditTask t st;
                        Form.fields := Some (Store.initialFields (Some t)) |}).
    { unfold p. rewrite Hm. apply Hopen. }
    split; [by rewrite Hm|]. split; [by rewrite Hp|].
    intros Hin Hnd. rewrite Hp, Hsubmit by exact Ht.
    cbn [Form.index Form.fields]. split; [|reflexivity].
    rewrite (submit_update _ uuid now (Store.handleEditTask t st) t);
      [|exact Ht|reflexivity].
    cbn [fst Store.tasks Store.handleEditTask]. rewrite Hnew.
    rewrite <- (list_fmap_id (Store.tasks st)) at 2.
    apply list_fmap_ext. intros i x Hx. cbn beta.
    case_bool_decide as Hid; [|reflexivity].
    symmetry. apply (NoDup_id_inj (Store.tasks st)); try assumption.
    by eapply list_elem_of_lookup_2.
  - intros f Hsf Hf p.
    assert (Hp : p = {| Form.index := Store.handleEditTask t st;
                        Form.fields := Some f |}).
    { unfold p. apply Hopen. }
    split; [by rewrite Hp|]. intros i x Hx Hid.
    rewrite Hp, Hsubmit by exact Hf. cbn [Form.index].
    assert (Hn : Store.id (Store.newTask f (Some t) uuid now) = Store.id t).
    { unfold Store.newTask. cbn [Store.id]. by apply or_else_truthy. }
    set (e := Store.newTask f (Some t) uuid now) in *.
    exists e.
    rewrite (submit_update f uuid now (Store.handleEditTask t st) t);
      [|exact Hf|reflexivity].
    fold e. cbn [fst Store.tasks Store.handleEditTask].
    rewrite list_lookup_fmap, Hx. cbn [fmap option_fmap option_map].
    rewrite bool_decide_true by congruence.
    split; [reflexivity|]. split; [exact Hn|reflexivity].
Qed.

(** The sample task is edited with no form open, and once more while the
    form for a new task is open with the title [Eggs] typed in. *)
Lemma X7_edit_untouched_witness :
  let st := Store.handleStartTest Store.sample_created in
  let open := Store.handle Store.ClickAddTask st in
  let eggs := {| Store.f_title := "Eggs"; Store.f_description := "";
                 Store.f_priority := Store.medium; Store.f_dueDate := "" |} in
  Js.trim (Store.title Store.sample_task) ≠ "" ∧
  Store.testStarted st = true ∧ Store.showForm st = false ∧
  Store.showForm open = true ∧
  Store.tasks
    (Form.index
       (Form.submit "u2" "n2"
          (Form.click (Store.ClickEdit Store.sample_task) (Form.mount st)))) =
    [Store.sample_task] ∧
  Store.title <$>
    Store.tasks
      (Form.index
         (Form.submit "u2" "n2"
            (Form.click (Store.ClickEdit Store.sample_task)
               (Form.change eggs (Form.mount open))))) = ["Eggs"].
Proof.
  intros st open eggs.
  assert (Ht : Js.trim (Store.title Store.sample_task) ≠ "") by discriminate.
  assert (Hi : Store.id Store.sample_task ≠ "") by discriminate.
  assert (Hc : Store.createdAt Store.sample_task ≠ "") by discriminate.
  assert (Hd : ∀ dd, Store.dueDate Store.sample_task = Some dd →
                 dd ≠ "" ∧ (String.length dd ≤ 10)%nat) by discriminate.
  assert (Hin : Store.sample_task ∈ Store.tasks st) by apply list_elem_of_here.
  assert (Hnd : NoDup (Store.id <$> Store.tasks st)).
  { apply (bool_decide_unpack _). vm_compute. exact I. }
  split; [exact Ht|]. split; [reflexivity|]. split; [reflexivity|].
  split; [reflexivity|]. split.
  - exact (proj1 (proj2 (proj2 (proj1
      (X7_edit_untouched Store.sample_task "2 l" "u2" "n2" st
         Ht Hi Hc eq_refl Hd eq_refl) eq_refl)) Hin Hnd)).
  - destruct (proj2 (proj2
      (X7_edit_untouched Store.sample_task "2 l" "u2" "n2" open
         Ht Hi Hc eq_refl Hd eq_refl) eggs eq_refl
         ltac:(discriminate)) 0%nat Store.sample_task eq_refl eq_refl)
      as (y & Hy & _ & Hty).
    change (Form.change eggs (Form.mount open))
      with {| Form.index := open; Form.fields := Some eggs |}.
    destruct (Store.tasks _) as [|y' [|]] eqn:E in Hy |- *;
      try discriminate Hy.
    + injection Hy as ->. cbn [fmap list_fmap]. by rewrite Hty.
    + exfalso. revert E. vm_compute. discriminate.
Defined.

Section search_facts.
Import Store.

Lemma string_app_assoc_l (a b c : string) :
  (a +:+ b) +:+ c = a +:+ (b +:+ c).
Proof.
  induction a as [|x a IH]; [reflexivity|].
  rewrite !string_app_cons. by rewrite IH.
Qed.

Lemma string_app_nil_r (a : string) : a +:+ "" = a.
Proof.
  induction a as [|x a IH]; [reflexivity|].
  rewrite string_app_cons. by rewrite IH.
Qed.

Lemma includes_trans s q' q :
  Js.includes s q' = true → Js.includes q' q = true → Js.includes s q = true.
Proof.
  rewrite !includes_spec. intros (a & b & ->) (c & d & ->).
  exists (a +:+ c), (d +:+ b). by rewrite !string_app_assoc_l.
Qed.

Lemma is_white_space_lower c :
  Js.is_white_space (Js.toLowerCase_unit c) = Js.is_white_space c.
Proof. destruct c as [[] [] [] [] [] [] [] []]; reflexivity. Qed.

Lemma whitespace_only_lower q :
  Js.whitespace_only (Js.toLowerCase q) ↔ Js.whitespace_only q.
Proof.
  induction q as [|c q IH]; [reflexivity|].
  cbn [Js.toLowerCase]. rewrite !whitespace_only_cons, is_white_space_lower, IH.
  reflexivity.
Qed.

Lemma whitespace_only_app a b :
  Js.whitespace_only (a +:+ b) ↔ Js.whitespace_only a ∧ Js.whitespace_only b.
Proof.
  induction a as [|c a IH].
  - rewrite string_app_nil_l. split; [|tauto].
    intros H. split; [apply whitespace_only_nil|exact H].
  - rewrite string_app_cons, !whitespace_only_cons, IH. tauto.
Qed.

(** A query that has only white space has only white space inside. *)
Lemma whitespace_only_included q' q :
  Js.includes (Js.toLowerCase q') (Js.toLowerCase q) = true →
  Js.whitespace_only q' → Js.whitespace_only q.
Proof.
  intros H Hq'. apply includes_spec in H as (a & b & H).
  apply whitespace_only_lower in Hq'. rewrite H in Hq'.
  apply whitespace_only_app in Hq' as [_ Hq'].
  apply whitespace_only_app in Hq' as [Hq' _].
  by apply whitespace_only_lower.
Qed.

Lemma matches_narrow q' q t :
  Js.includes q' q = true → matches q' t = true → matches q t = true.
Proof.
  intros H. unfold matches. rewrite !orb_true_iff.
  intros [Ht|Hd]; [left; by eapply includes_trans|right].
  destruct (description t) as [d|]; [|discriminate].
  apply andb_true_iff in Hd as [Hd1 Hd2]. apply andb_true_iff.
  split; [exact Hd1|by eapply includes_trans].
Qed.

Lemma filteredTasks_blank ts q :
  Js.whitespace_only q → filteredTasks ts q = ts.
Proof.
  intros H. apply trim_empty_iff in H. unfold filteredTasks.
  by rewrite bool_decide_true.
Qed.

Lemma filteredTasks_matches ts q :
  ¬ Js.whitespace_only q →
  filteredTasks ts q = List.filter (matches (Js.toLowerCase q)) ts.
Proof.
  intros H. rewrite <- trim_empty_iff in H. unfold filteredTasks.
  by rewrite bool_decide_false.
Qed.

Lemma whitespace_only_dec q : Decision (Js.whitespace_only q).
Proof.
  destruct (decide (Js.trim q = "")) as [H|H]; [left|right];
    by rewrite <- trim_empty_iff.
Qed.

End search_facts.

(** X8: refining a search.  If the earlier query occurs in the new one up
    to the case of letters, searching the earlier result for the new query
    gives what searching the whole list gives, and the new result is a
    subsequence of the earlier one; in particular searching a result again
    for the same query changes nothing. *)
Theorem X8_filter_refine (ts : list Store.Task) (q q' : string) :
  Js.includes (Js.toLowerCase q') (Js.toLowerCase q) = true →
  Store.filteredTasks (Store.filteredTasks ts q) q' = Store.filteredTasks ts q' ∧
  sublist (Store.filteredTasks ts q') (Store.filteredTasks ts q) ∧
  Store.filteredTasks (Store.filteredTasks ts q) q = Store.filteredTasks ts q.
Proof.
  intros H.
  assert (Hrefine : ∀ p p', Js.includes (Js.toLowerCase p') (Js.toLowerCase p) = true →
    Store.filteredTasks (Store.filteredTasks ts p) p' = Store.filteredTasks ts p').
  { intros p p' Hp. destruct (whitespace_only_dec p) as [Hb|Hb].
    { by rewrite (filteredTasks_blank ts p). }
    destruct (whitespace_only_dec p') as [Hb'|Hb'].
    { destruct Hb. by eapply whitespace_only_included. }
    rewrite (filteredTasks_matches _ p') by assumption.
    rewrite (filteredTasks_matches _ p') by assumption.
    rewrite (filteredTasks_matches _ p) by assumption.
    apply List_filter_refine. intros t. by apply matches_narrow. }
  split; [by apply Hrefine|]. split.
  - rewrite <- (Hrefine q q' H). apply filteredTasks_sublist.
  - apply Hrefine. apply includes_spec. exists "", "".
    by rewrite string_app_nil_l, string_app_nil_r.
Qed.

Lemma X8_filter_refine_witness :
  Js.includes (Js.toLowerCase "Milk") (Js.toLowerCase "mi") = true ∧
  Store.filteredTasks (Store.filteredTasks [Store.sample_task] "mi") "Milk" =
    Store.filteredTasks [Store.sample_task] "Milk".
Proof.
  split; [reflexivity|].
  exact (proj1 (X8_filter_refine [Store.sample_task] "mi" "Milk" eq_refl)).
Defined.

(** X9: the search result follows the list.  Toggling a task and then
    searching gives the earlier result with that task toggled, so a toggle
    never changes which tasks are shown or where; deleting a task and then
    searching gives the earlier result without it. *)
Theorem X9_filter_follows_list (t : Store.Task) (st : Store.Index)
    (q : string) :
  Store.filteredTasks (Store.tasks (Store.handleToggleComplete t st)) q =
    (λ task, if bool_decide (Store.id task = Store.id t)
             then Store.toggled task else task)
      <$> Store.filteredTasks (Store.tasks st) q ∧
  length (Store.filteredTasks (Store.tasks (Store.handleToggleComplete t st)) q)
    = length (Store.filteredTasks (Store.tasks st) q) ∧
  Store.filteredTasks (Store.tasks (Store.handleDeleteTask t st)) q =
    filter (λ task, Store.id task ≠ Store.id t)
      (Store.filteredTasks (Store.tasks st) q).
Proof.
  cbn [Store.handleToggleComplete Store.handleDeleteTask Store.tasks].
  assert (Htoggle :
    Store.filteredTasks
      ((λ task, if bool_decide (Store.id task = Store.id t)
                then Store.toggled task else task) <$> Store.tasks st) q =
    (λ task, if bool_decide (Store.id task = Store.id t)
             then Store.toggled task else task)
      <$> Store.filteredTasks (Store.tasks st) q).
  { unfold Store.filteredTasks. case_bool_decide; [reflexivity|].
    apply List_filter_fmap. intros x. by case_bool_decide. }
  split; [exact Htoggle|]. split; [by rewrite Htoggle, length_fmap|].
  unfold Store.filteredTasks. case_bool_decide; [reflexivity|].
  apply List_filter_filter_comm.
Qed.



(** X11: the search does not look at the case of the query: two queries
    with the same lower case give the same result on every list. *)
Theorem X11_filter_query_case (ts : list Store.Task) (q1 q2 : string) :
  Js.toLowerCase q1 = Js.toLowerCase q2 →
  Store.filteredTasks ts q1 = Store.filteredTasks ts q2.
Proof.
  intros H.
  assert (Hb : Js.whitespace_only q1 ↔ Js.whitespace_only q2).
  { by rewrite <- (whitespace_only_lower q1), H, whitespace_only_lower. }
  destruct (whitespace_only_dec q1) as [H1|H1].
  - rewrite !filteredTasks_blank; [reflexivity|by apply Hb|assumption].
  - rewrite !filteredTasks_matches; [by rewrite H| |assumption].
    intros H2. apply H1. by apply Hb.
Qed.

Lemma X11_filter_query_case_witness :
  Js.toLowerCase "MILK" = Js.toLowerCase "milk" ∧
  Store.filteredTasks [Store.sample_task] "MILK" =
    Store.filteredTasks [Store.sample_task] "milk".
Proof.
  split; [reflexivity|].
  exact (X11_filter_query_case [Store.sample_task] "MILK" "milk" eq_refl).
Defined.

(** ** The page as a whole *)

Section page_facts.
Import App.

Lemma timerRef_second s :
  Timer.timer_inv s → Timer.timerRef (Timer.second s) = Timer.timerRef s.
Proof.
  intros H. unfold Timer.timer_inv in H.
  destruct (Timer.timerRef s) as [h|] eqn:E.
  - destruct H as [[Hi _]|[Hi _]].
    + rewrite (second_single s h Hi). unfold Timer.tick.
      by case_bool_decide.
    + by rewrite second_idle.
  - destruct H as [Hi _]. by rewrite second_idle.
Qed.

Lemma testStarted_submit f uuid now st :
  Store.testStarted (fst (Store.submit f uuid now st)) = Store.testStarted st.
Proof.
  destruct (decide (Js.trim (Store.f_title f) = "")) as [Hb|Hv].
  { by rewrite submit_blank. }
  destruct (Store.editingTask st) as [t0|] eqn:He.
  - by rewrite (submit_update f uuid now st t0).
  - by rewrite submit_create.
Qed.

Lemma page_inv_handle e s : page_inv s → enabled e s → page_inv (handle e s).
Proof.
  intros (Hi & Ht & Hst) Hen.
  assert (Hother : ∀ e',
    Store.enabled e' (index s) →
    Store.testStarted (Store.handle e' (index s)) =
      Store.testStarted (index s) →
    page_inv {| index := Store.handle e' (index s); timer := timer s |}).
  { intros e' He' Hsame. split; [by apply Store.reachable_handle|].
    split; [exact Ht|]. cbn [index timer]. by rewrite Hsame. }
  destruct e as [e| |].
  - destruct e as [| | |t|t|t|q| |f uuid now]; cbn [handle enabled] in *.
    + split; [by apply (Store.reachable_handle Store.StartTest)|].
      split; [by apply (Timer.reachable_step _ Timer.Start)|].
      cbn [index timer Store.handleStartTest Store.testStarted].
      apply Hst in Hen. unfold Timer.startTimer. rewrite Hen.
      cbn [Timer.timerRef]. split; discriminate.
    + split; [by apply (Store.reachable_handle Store.ResetTest)|].
      split; [by apply (Timer.reachable_step _ Timer.Reset)|].
      split; reflexivity.
    + by apply (Hother Store.ClickAddTask).
    + destruct Hen as [_ Hen]. by apply (Hother (Store.ClickEdit t)).
    + destruct Hen as [_ Hen]. by apply (Hother (Store.ClickDelete t)).
    + destruct Hen as [_ Hen]. by apply (Hother (Store.ClickToggle t)).
    + by apply (Hother (Store.Search q)).
    + by apply (Hother Store.Cancel).
    + destruct Hen as [_ Hen].
      apply (Hother (Store.Submit f uuid now)); [exact Hen|].
      apply testStarted_submit.
  - cbn [handle]. split; [exact Hi|].
    split; [by apply (Timer.reachable_step _ Timer.Second)|].
    cbn [index timer]. rewrite timerRef_second; [exact Hst|].
    by eapply timer_inv_reachable.
  - cbn [handle]. split; [by apply Store.reachable_reload|].
    split; [constructor|]. split; reflexivity.
Qed.

Lemma page_inv_runs s es s' : runs s es s' → page_inv s → page_inv s'.
Proof.
  induction 1 as [|s e es s' Hen _ IH]; [auto|].
  intros H. apply IH. by apply page_inv_handle.
Qed.

Lemma page_inv_reachable s : reachable s → page_inv s.
Proof.
  intros [es H]. apply (page_inv_runs _ _ _ H).
  split; [constructor|]. split; [constructor|]. split; reflexivity.
Qed.

Lemma runs_app s es s' es' s'' :
  runs s es s' → runs s' es' s'' → runs s (es ++ es')%list s''.
Proof.
  induction 1 as [|s e es s' Hen _ IH]; [auto|].
  intros H. simpl. constructor; [exact Hen|]. by apply IH.
Qed.

Lemma reachable_runs s es s' : reachable s → runs s es s' → reachable s'.
Proof. intros [es0 H0] H. exists (es0 ++ es)%list. by eapply runs_app. Qed.

Lemma runs_seconds (k : nat) s :
  runs s (replicate k Second)
    {| index := index s; timer := Timer.seconds k (timer s) |}.
Proof.
  revert s. induction k as [|k IH]; intros s.
  - destruct s. constructor.
  - cbn [replicate]. constructor; [exact I|].
    specialize (IH (handle Second s)). cbn [handle index timer] in IH.
    unfold Timer.seconds in *. by rewrite Nat.iter_succ_r.
Qed.

End page_facts.

(** X12: on the page the test is started exactly while the timer's ref
    holds a handle, so the start buttons are only there when it holds
    none: every click on them starts a countdown from 3600 with [isTimeUp]
    cleared, and the time is never up before the test was started.  The
    list and the timer are, in every state of the page, in states that
    their own events reach. *)
Theorem X12_page_invariant (s : App.state) :
  App.reachable s →
  Store.reachable (App.index s) ∧
  Timer.reachable Timer.initialTime (App.timer s) ∧
  (Store.testStarted (App.index s) = false ↔
   Timer.timerRef (App.timer s) = None) ∧
  (Timer.isTimeUp (App.timer s) = true →
   Store.testStarted (App.index s) = true) ∧
  (App.enabled (App.User Store.StartTest) s →
   let s' := App.handle (App.User Store.StartTest) s in
   Store.testStarted (App.index s') = true ∧
   Timer.running (App.timer s') = true ∧
   Timer.timeRemaining (App.timer s') = 3600 ∧
   Timer.isTimeUp (App.timer s') = false).
Proof.
  intros Hr. destruct (page_inv_reachable s Hr) as (Hi & Ht & Hst).
  assert (Hn : 1 ≤ Timer.initialTime) by (unfold Timer.initialTime; lia).
  pose proof (countdown_inv_reachable _ _ Hn Ht) as Hc.
  unfold Timer.countdown_inv in Hc.
  split; [exact Hi|]. split; [exact Ht|]. split; [exact Hst|]. split.
  - intros Hu. apply not_false_iff_true. intros E.
    apply Hst in E. rewrite E in Hc. destruct Hc as (_ & Hf & _). congruence.
  - cbn [App.enabled]. intros Hen. apply Hst in Hen. rewrite Hen in Hc.
    destruct Hc as (Hint & _ & Htr).
    cbn [App.handle App.index App.timer Store.handleStartTest Store.testStarted].
    unfold Timer.startTimer. rewrite Hen.
    cbn [Timer.timeRemaining Timer.isTimeUp]. unfold Timer.running.
    cbn [Timer.intervals]. repeat split. exact Htr.
Qed.

Lemma X12_page_invariant_witness :
  App.reachable App.initial ∧
  (App.enabled (App.User Store.StartTest) App.initial →
   Timer.timeRemaining
     (App.timer (App.handle (App.User Store.StartTest) App.initial)) = 3600).
Proof.
  assert (Hr : App.reachable App.initial) by (exists []; constructor).
  split; [exact Hr|]. intros Hen.
  exact (proj1 (proj2 (proj2
    (proj2 (proj2 (proj2 (proj2 (X12_page_invariant App.initial Hr)))) Hen)))).
Defined.

Section expiry_facts.
Import App.

Lemma closed_step e s :
  page_inv s → closed_for_new_tasks s → enabled e s →
  e ≠ User Store.ResetTest → e ≠ Reload →
  closed_for_new_tasks (handle e s) ∧
  (length (Store.tasks (index (handle e s))) ≤
   length (Store.tasks (index s)))%nat.
Proof.
  intros (Hi & Ht & Hst) [Hup Hform] Hen Hreset Hreload.
  pose proof (timer_inv_reachable _ _ Ht) as Hinv.
  assert (Hstarted : Store.testStarted (index s) = true).
  { apply not_false_iff_true. intros E. apply Hst in E.
    unfold Timer.timer_inv in Hinv. rewrite E in Hinv.
    destruct Hinv as [_ Hf]. congruence. }
  destruct e as [e| |]; [|clear Hreset|contradiction].
  - destruct e as [| | |t|t|t|q| |f uuid now]; cbn [handle enabled] in *.
    + congruence.
    + contradiction.
    + destruct Hen as [_ Hen]. congruence.
    + split; [|reflexivity]. split; [exact Hup|]. discriminate.
    + split; [by split|]. cbn [index Store.handle Store.handleDeleteTask Store.tasks].
      apply length_filter.
    + split; [by split|].
      cbn [index Store.handle Store.handleToggleComplete Store.tasks].
      by rewrite length_fmap.
    + split; [by split|reflexivity].
    + split; [|reflexivity]. split; [exact Hup|]. discriminate.
    + destruct Hen as [_ (Hshow & _)]. specialize (Hform Hshow).
      destruct (Store.editingTask (index s)) as [t0|] eqn:He; [|contradiction].
      cbn [index timer Store.handle].
      destruct (decide (Js.trim (Store.f_title f) = "")) as [Hb|Hv].
      * rewrite submit_blank by assumption. cbn [fst].
        split; [|reflexivity]. split; [exact Hup|]. intros _.
        cbn [index]. by rewrite He.
      * rewrite (submit_update f uuid now (index s) t0) by assumption.
        cbn [fst Store.tasks Store.showForm]. split.
        -- split; [exact Hup|]. discriminate.
        -- by rewrite length_fmap.
  - cbn [handle index timer]. split; [|reflexivity]. split; [|exact Hform].
    unfold Timer.timer_inv in Hinv.
    destruct (Timer.timerRef (timer s)) as [h|].
    + destruct Hinv as [[_ Hf]|[Hint _]]; [congruence|].
      by rewrite second_idle.
    + destruct Hinv as [_ Hf]. congruence.
Qed.

Lemma expired_closed_reachable : reachable expired_closed.
Proof.
  exists ([User Store.StartTest] ++ replicate 3600 Second)%list.
  cbn [app]. constructor; [reflexivity|].
  apply (runs_seconds 3600 (handle (User Store.StartTest) initial)).
Qed.

Lemma expired_with_form_reachable : reachable expired_with_form.
Proof.
  exists ([User Store.StartTest; User Store.ClickAddTask]
            ++ replicate 3600 Second)%list.
  cbn [app]. constructor; [reflexivity|].
  constructor; [split; reflexivity|].
  apply (runs_seconds 3600
           (handle (User Store.ClickAddTask)
              (handle (User Store.StartTest) initial))).
Qed.

Lemma expired_with_form_eq :
  expired_with_form =
    {| index :=
         {| Store.tasks := []; Store.showForm := true;
            Store.editingTask := None; Store.testStarted := true;
            Store.searchQuery := "" |};
       timer :=
         {| Timer.timeRemaining := 0; Timer.isTimeUp := true;
            Timer.timerRef := Some 1%positive; Timer.intervals := [];
            Timer.nextHandle := 2 |} |}.
Proof. unfold expired_with_form. rewrite expired_state_eq. reflexivity. Qed.

End expiry_facts.

(** X13: once the time is up and the form is closed, or open on a task
    that is edited, the list never gets longer: whatever the user does and
    however long the page stays open, short of resetting the test or
    loading the page again, no task is added and the time stays up. *)
Theorem X13_no_new_task_after_expiry (s s' : App.state)
    (es : list App.event) :
  App.reachable s → App.closed_for_new_tasks s → App.runs s es s' →
  App.User Store.ResetTest ∉ es → App.Reload ∉ es →
  App.closed_for_new_tasks s' ∧
  (length (Store.tasks (App.index s')) ≤
   length (Store.tasks (App.index s)))%nat.
Proof.
  intros Hr Hc Hruns. apply page_inv_reachable in Hr.
  induction Hruns as [|s e es s' Hen Hruns IH]; intros Hreset Hreload.
  - split; [exact Hc|reflexivity].
  - apply not_elem_of_cons in Hreset as [He1 Hreset].
    apply not_elem_of_cons in Hreload as [He2 Hreload].
    destruct (closed_step e s Hr Hc Hen) as [Hc' Hlen]; [congruence..|].
    destruct (IH (page_inv_handle e s Hr Hen) Hc' Hreset Hreload)
      as [Hc'' Hlen'].
    split; [exact Hc''|lia].
Qed.

Lemma X13_no_new_task_after_expiry_witness :
  App.reachable App.expired_closed ∧
  App.closed_for_new_tasks App.expired_closed ∧
  App.runs App.expired_closed [App.Second; App.User (Store.Search "x")]
    (App.handle (App.User (Store.Search "x"))
       (App.handle App.Second App.expired_closed)) ∧
  (length (Store.tasks (App.index
     (App.handle (App.User (Store.Search "x"))
        (App.handle App.Second App.expired_closed)))) ≤
   length (Store.tasks (App.index App.expired_closed)))%nat.
Proof.
  assert (Hc : App.closed_for_new_tasks App.expired_closed).
  { split; [|discriminate].
    cbn [App.timer App.expired_closed]. by rewrite expired_state_eq. }
  assert (Hruns : App.runs App.expired_closed
    [App.Second; App.User (Store.Search "x")]
    (App.handle (App.User (Store.Search "x"))
       (App.handle App.Second App.expired_closed))).
  { constructor; [exact I|]. constructor; [split; [reflexivity|exact I]|].
    constructor. }
  assert (H1 : App.User Store.ResetTest ∉
               [App.Second; App.User (Store.Search "x")]).
  { intros H. apply elem_of_cons in H as [H|H]; [discriminate H|].
    apply elem_of_cons in H as [H|H]; [discriminate H|].
    by apply elem_of_nil in H. }
  assert (H2 : App.Reload ∉ [App.Second; App.User (Store.Search "x")]).
  { intros H. apply elem_of_cons in H as [H|H]; [discriminate H|].
    apply elem_of_cons in H as [H|H]; [discriminate H|].
    by apply elem_of_nil in H. }
  split; [apply expired_closed_reachable|]. split; [exact Hc|].
  split; [exact Hruns|].
  exact (proj2 (X13_no_new_task_after_expiry _ _ _
                  expired_closed_reachable Hc Hruns H1 H2)).
Defined.

(** X14: the end of the time does not close a form that is open for a new
    task.  The state in which the form was opened, the hour went by and the
    time is up can be reached; there the Add Task button is disabled, but the
    form can still be submitted, and a valid submission adds its task. *)
Theorem X14_open_form_survives_expiry :
  App.reachable App.expired_with_form ∧
  Timer.isTimeUp (App.timer App.expired_with_form) = true ∧
  ¬ App.enabled (App.User Store.ClickAddTask) App.expired_with_form ∧
  ∀ f uuid now,
    Js.trim (Store.f_title f) ≠ "" → uuid ≠ "" → now ≠ "" →
    App.enabled (App.User (Store.Submit f uuid now)) App.expired_with_form ∧
    Store.tasks (App.index
      (App.handle (App.User (Store.Submit f uuid now)) App.expired_with_form))
    = [Store.newTask f None uuid now].
Proof.
  split; [apply expired_with_form_reachable|].
  rewrite expired_with_form_eq.
  split; [reflexivity|]. split.
  - intros [_ H]. discriminate H.
  - intros f uuid now Hv Hu Hn. split.
    + split; [reflexivity|]. split; [reflexivity|].
      split; [exact Hu|]. split; [exact Hn|].
      split; [apply not_elem_of_nil|discriminate].
    + cbn [App.handle App.index Store.handle].
      by rewrite submit_create.
Qed.

Lemma X14_open_form_survives_expiry_witness :
  Js.trim (Store.f_title Store.sample_fields) ≠ "" ∧
  Store.tasks (App.index
    (App.handle (App.User (Store.Submit Store.sample_fields "u1" "n1"))
       App.expired_with_form))
  = [Store.newTask Store.sample_fields None "u1" "n1"].
Proof.
  assert (Hv : Js.trim (Store.f_title Store.sample_fields) ≠ "")
    by discriminate.
  split; [exact Hv|].
  exact (proj2 (proj2 (proj2 (proj2 X14_open_form_survives_expiry))
    Store.sample_fields "u1" "n1" Hv ltac:(discriminate) ltac:(discriminate))).
Defined.

(** ** Saving and loading *)

Section save_facts.
Import Json Save.

Lemma steps_cons s c r : steps s (String c r) = then_steps (step s c) r.
Proof. reflexivity. Qed.

Lemma steps_app s a b : steps s (a +:+ b) = then_steps (steps s a) b.
Proof.
  revert s. induction a as [|c a IH]; intros s; [reflexivity|].
  rewrite string_app_cons, !steps_cons.
  destruct (step s c) as [s'|]; [apply IH|reflexivity].
Qed.

Lemma units_cons c r : Load.units (String c r) = N_of_ascii c :: Load.units r.
Proof. reflexivity. Qed.

(** The scanner reads back the code unit that [quote_unit] wrote. *)
Lemma steps_quote_unit stack is_key acc c :
  steps (stack, InStr is_key Plain acc) (quote_unit c) =
    Some (stack, InStr is_key Plain (N_of_ascii c :: acc)).
Proof. destruct c as [[] [] [] [] [] [] [] []]; reflexivity. Qed.

Lemma steps_quote_units stack is_key acc s :
  steps (stack, InStr is_key Plain acc) (quote_units s) =
    Some (stack, InStr is_key Plain (rev (Load.units s) ++ acc)).
Proof.
  revert acc. induction s as [|c s IH]; intros acc; [reflexivity|].
  cbn [quote_units]. rewrite steps_app, steps_quote_unit. cbn [then_steps].
  rewrite IH, units_cons. cbn [rev]. by rewrite <- app_assoc.
Qed.

Lemma steps_quote_value stack first s rest :
  steps (stack, Value first) (quote s +:+ rest) =
    then_steps (complete (Str (Load.units s)) stack) rest.
Proof.
  unfold quote. rewrite string_app_cons, steps_cons.
  change (step (stack, Value first) "034"%char)
    with (Some (stack, InStr false Plain [])).
  cbn [then_steps]. rewrite string_app_assoc_l, steps_app, steps_quote_units.
  cbn [then_steps]. rewrite string_app_cons, steps_cons, app_nil_r.
  change (step (stack, InStr false Plain (rev (Load.units s))) "034"%char)
    with (complete (Str (rev (rev (Load.units s)))) stack).
  by rewrite rev_involutive.
Qed.

Lemma steps_quote_key members st first k rest :
  steps (FObject members :: st, Key first) (quote k +:+ rest) =
    steps (FMember members (Load.units k) :: st, Colon) rest.
Proof.
  unfold quote. rewrite string_app_cons, steps_cons.
  change (step (FObject members :: st, Key first) "034"%char)
    with (Some (FObject members :: st, InStr true Plain [])).
  cbn [then_steps]. rewrite string_app_assoc_l, steps_app, steps_quote_units.
  cbn [then_steps]. rewrite string_app_cons, steps_cons, app_nil_r.
  change (step (FObject members :: st, InStr true Plain (rev (Load.units k)))
            "034"%char)
    with (Some (FMember members (rev (rev (Load.units k))) :: st, Colon)).
  by rewrite rev_involutive.
Qed.

Lemma steps_scalar stack first v rest :
  steps (stack, Value first) (stringify_scalar v +:+ rest) =
    then_steps (complete (value_of_scalar v) stack) rest.
Proof.
  destruct v as [s|[]]; [apply steps_quote_value|reflexivity..].
Qed.

Lemma steps_property members st first p rest :
  steps (FObject members :: st, Key first) (stringify_property p +:+ rest) =
    steps (FObject (member_of p :: members) :: st, After) rest.
Proof.
  unfold stringify_property. rewrite string_app_assoc_l, steps_quote_key.
  rewrite string_app_assoc_l, string_app_cons, steps_cons.
  change (step (FMember members (Load.units p.1) :: st, Colon) ":"%char)
    with (Some (FMember members (Load.units p.1) :: st, Value false)).
  cbn [then_steps]. rewrite string_app_nil_l, steps_scalar. reflexivity.
Qed.

Lemma steps_properties members st first p ps rest :
  steps (FObject members :: st, Key first)
    (join "," (stringify_property <$> (p :: ps)) +:+ rest) =
    steps (FObject (rev (member_of <$> (p :: ps)) ++ members) :: st, After) rest.
Proof.
  revert members first p. induction ps as [|p' ps IH]; intros members first p.
  - cbn [fmap list_fmap join]. rewrite steps_property. reflexivity.
  - rewrite fmap_cons. rewrite fmap_cons.
    change (join "," (stringify_property p :: stringify_property p'
                        :: (stringify_property <$> ps)))
      with (stringify_property p +:+ "," +:+
            join "," (stringify_property <$> (p' :: ps))).
    rewrite string_app_assoc_l, steps_property.
    rewrite string_app_assoc_l, string_app_cons, steps_cons.
    change (step (FObject (member_of p :: members) :: st, After) ","%char)
      with (Some (FObject (member_of p :: members) :: st, Key false)).
    cbn [then_steps]. rewrite string_app_nil_l, IH.
    rewrite (fmap_cons member_of p). cbn [rev].
    by rewrite <- app_assoc.
Qed.

Lemma steps_object stack first ps rest :
  steps (stack, Value first) (stringify_object ps +:+ rest) =
    then_steps (complete (value_of_object ps) stack) rest.
Proof.
  unfold stringify_object, value_of_object.
  rewrite string_app_cons, string_app_nil_l, string_app_cons, steps_cons.
  change (step (stack, Value first) "{"%char)
    with (Some (FObject [] :: stack, Key true)).
  cbn [then_steps]. destruct ps as [|p ps].
  - reflexivity.
  - rewrite string_app_assoc_l, steps_properties.
    rewrite string_app_cons, steps_cons, app_nil_r.
    change (step (FObject (rev (member_of <$> p :: ps)) :: stack, After) "}"%char)
      with (complete (Object (rev (rev (member_of <$> p :: ps)))) stack).
    by rewrite rev_involutive.
Qed.

Lemma steps_elements items first (t : Store.Task) ts rest :
  steps ([FArray items], Value first)
    (join "," ((λ t, stringify_object (properties t)) <$> (t :: ts)) +:+ rest) =
    steps ([FArray (rev ((λ t, value_of_object (properties t)) <$> (t :: ts))
                      ++ items)], After) rest.
Proof.
  revert items first t. induction ts as [|t' ts IH]; intros items first t.
  - cbn [fmap list_fmap join]. rewrite steps_object. reflexivity.
  - rewrite fmap_cons. rewrite fmap_cons.
    change (join "," (stringify_object (properties t)
                        :: stringify_object (properties t')
                        :: ((λ t, stringify_object (properties t)) <$> ts)))
      with (stringify_object (properties t) +:+ "," +:+
            join "," ((λ t, stringify_object (properties t)) <$> (t' :: ts))).
    rewrite string_app_assoc_l, steps_object. cbn [complete then_steps].
    rewrite string_app_assoc_l, string_app_cons, steps_cons.
    change (step ([FArray (value_of_object (properties t) :: items)], After)
              ","%char)
      with (Some ([FArray (value_of_object (properties t) :: items)],
                  Value false)).
    cbn [then_steps]. rewrite string_app_nil_l, IH.
    rewrite (fmap_cons _ t). cbn [rev]. by rewrite <- app_assoc.
Qed.

(** [JSON.parse] reads what [JSON.stringify] writes for a task list. *)
Lemma parse_stringify ts : parse (stringify ts) = Some (value_of_tasks ts).
Proof.
  unfold parse, stringify, value_of_tasks.
  rewrite string_app_cons, string_app_nil_l, steps_cons.
  change (step ([], Value false) "["%char)
    with (Some ([FArray []], Value true)).
  cbn [then_steps]. destruct ts as [|t ts]; [reflexivity|].
  rewrite steps_elements, app_nil_r.
  cbn [steps]. change (step ?s "]"%char) with
    (complete (Array (rev (rev ((λ t, value_of_object (properties t))
                                  <$> (t :: ts))))) []).
  by rewrite rev_involutive.
Qed.

End save_facts.

Section roundtrip_facts.
Import Save.

Lemma units_inj s s' : Load.units s = Load.units s' → s = s'.
Proof.
  revert s'. induction s as [|c s IH]; intros [|c' s'] H; try discriminate H.
  - reflexivity.
  - rewrite !units_cons in H. injection H as Hc Hs.
    apply (f_equal ascii_of_N) in Hc. rewrite !ascii_N_embedding in Hc.
    f_equal; [exact Hc|by apply IH].
Qed.

Lemma Priority_name_inj p p' :
  Load.units (Priority_name p) = Load.units (Priority_name p') → p = p'.
Proof. destruct p, p'; intros H; (reflexivity || discriminate H). Qed.

Lemma is_task_value t : Load.is_task (value_of_object (properties t)) = true.
Proof.
  destruct t as [i ti [d|] p c [dd|] cr]; destruct p; reflexivity.
Qed.

Lemma is_task_list_value ts : Load.is_task_list (value_of_tasks ts) = true.
Proof.
  unfold value_of_tasks. cbn [Load.is_task_list].
  induction ts as [|t ts IH]; [reflexivity|].
  rewrite fmap_cons. cbn [forallb]. by rewrite is_task_value, IH.
Qed.

Local Ltac keys H :=
  let k1 := eval vm_compute in (Load.units "id") in
  change (Load.units "id") with k1 in H;
  let k2 := eval vm_compute in (Load.units "title") in
  change (Load.units "title") with k2 in H;
  let k3 := eval vm_compute in (Load.units "description") in
  change (Load.units "description") with k3 in H;
  let k4 := eval vm_compute in (Load.units "priority") in
  change (Load.units "priority") with k4 in H;
  let k5 := eval vm_compute in (Load.units "completed") in
  change (Load.units "completed") with k5 in H;
  let k6 := eval vm_compute in (Load.units "dueDate") in
  change (Load.units "dueDate") with k6 in H;
  let k7 := eval vm_compute in (Load.units "createdAt") in
  change (Load.units "createdAt") with k7 in H.

Lemma value_of_object_inj t t' :
  value_of_object (properties t) = value_of_object (properties t') → t = t'.
Proof.
  destruct t as [i ti d p c dd cr], t' as [i' ti' d' p' c' dd' cr'].
  unfold value_of_object, properties.
  cbn [Store.id Store.title Store.description Store.priority Store.completed
       Store.dueDate Store.createdAt].
  intros H. injection H as H.
  destruct d as [d|], d' as [d'|], dd as [dd|], dd' as [dd'|];
    cbn [app fmap list_fmap member_of fst snd value_of_scalar] in H;
    keys H; try discriminate H;
    simplify_eq;
    repeat match goal with
    | E : Load.units (Priority_name _) = Load.units (Priority_name _) |- _ =>
        apply Priority_name_inj in E
    | E : Load.units _ = Load.units _ |- _ => apply units_inj in E
    end; by subst.
Qed.

Lemma value_of_tasks_inj ts ts' :
  value_of_tasks ts = value_of_tasks ts' → ts = ts'.
Proof.
  unfold value_of_tasks. intros H. injection H as H.
  revert ts' H. induction ts as [|t ts IH]; intros [|t' ts'] H;
    try discriminate H; [reflexivity|].
  rewrite !fmap_cons in H.
  assert (Ht : value_of_object (properties t) =
               value_of_object (properties t')) by congruence.
  assert (Hts : (λ t, value_of_object (properties t)) <$> ts =
                (λ t, value_of_object (properties t)) <$> ts') by congruence.
  apply value_of_object_inj in Ht. subst. f_equal. by apply IH.
Qed.

Lemma stringify_truthy ts : Js.truthy (stringify ts) = true.
Proof. reflexivity. Qed.

End roundtrip_facts.

(** X15: what the save effect writes, the load effect reads back.  When
    writing the list succeeds, the slot holds its serialization, which is a
    valid serialization of a task list; loading it logs nothing and gives
    the array that has, for each task in order, the object with that task's
    properties and values; and this array is the value of no other list. *)
Theorem X15_save_then_load (ts : list Store.Task) (st st' : Save.storage) :
  Save.save ts st = (st', false) →
  Save.getItem st' = Load.Item (Save.stringify ts) ∧
  Load.valid_serialization (Save.stringify ts) ∧
  Load.load (Save.getItem st') = (Save.value_of_tasks ts, false) ∧
  (∀ ts', Save.value_of_tasks ts' = Save.value_of_tasks ts → ts' = ts).
Proof.
  intros H. unfold Save.save, Save.setItem in H.
  destruct (Save.available st && _) eqn:E; [|discriminate H].
  injection H as <-.
  assert (Hget : Save.getItem
    {| Save.available := true; Save.content := Some (Save.stringify ts);
       Save.quota := Save.quota st |} = Load.Item (Save.stringify ts))
    by reflexivity.
  split; [exact Hget|]. split.
  { exists (Save.value_of_tasks ts).
    split; [apply parse_stringify|apply is_task_list_value]. }
  split.
  - rewrite Hget. unfold Load.load, Load.try_block.
    by rewrite stringify_truthy, parse_stringify.
  - intros ts'. apply value_of_tasks_inj.
Qed.

Lemma X15_save_then_load_witness :
  let st := {| Save.available := true; Save.content := None;
               Save.quota := 5000 |} in
  Save.save [Store.sample_task] st =
    ({| Save.available := true;
        Save.content := Some (Save.stringify [Store.sample_task]);
        Save.quota := 5000 |}, false) ∧
  Load.load (Save.getItem (fst (Save.save [Store.sample_task] st))) =
    (Save.value_of_tasks [Store.sample_task], false).
Proof.
  intros st.
  assert (H : Save.save [Store.sample_task] st =
    ({| Save.available := true;
        Save.content := Some (Save.stringify [Store.sample_task]);
        Save.quota := 5000 |}, false)) by reflexivity.
  split; [exact H|]. rewrite H.
  exact (proj1 (proj2 (proj2 (X15_save_then_load _ _ _ H)))).
Defined.

Lemma stringify_length ts : (2 ≤ String.length (Save.stringify ts))%nat.
Proof.
  unfold Save.stringify. rewrite !string_length_app. simpl. lia.
Qed.

(** X16: the slot over a start of the page.  The save effect of the first
    render writes the text of the empty list.  When the load effect
    installs nothing, because the slot is missing, holds the empty text or
    holds text that [JSON.parse] rejects, no further save follows, so a
    slot that can be written holds the text of the empty list afterwards
    and text that did not parse is gone.  When the slot holds the text that
    the page wrote for a list and has room for it, the load effect installs
    that list, and the save effect of the render that follows writes the
    text again: the slot is then as it was before the start, and nothing is
    logged.  When the storage cannot be written, the slot is left as it
    was and the failure is logged. *)
Theorem X16_start_storage (st : Save.storage) :
  (Save.available st = true → (2 ≤ Save.quota st)%nat →
   Save.content st = None ∨ Save.content st = Some "" ∨
   (∃ s, Save.content st = Some s ∧ Json.parse s = None) →
     (fst (Save.first_render st) = None ∨
      fst (Save.first_render st) = Some None) ∧
     Save.start None st =
       ({| Save.available := true; Save.content := Some "[]";
           Save.quota := Save.quota st |}, false)) ∧
  (∀ ts,
     Save.available st = true →
     Save.content st = Some (Save.stringify ts) →
     (String.length (Save.stringify ts) ≤ Save.quota st)%nat →
     fst (Save.first_render st) = Some (Some (Save.value_of_tasks ts)) ∧
     Save.content (fst (snd (Save.first_render st))) = Some "[]" ∧
     Save.start (Some ts) st = (st, false)) ∧
  (∀ loadedTasks,
     Save.available st = false →
     Save.start loadedTasks st = (st, true)).
Proof.
  destruct st as [av co qu]. cbn [Save.available Save.content Save.quota].
  split; [|split].
  - intros -> Hq Hc.
    assert (Hs : Save.start None (Save.mkStorage true co qu) =
      ({| Save.available := true; Save.content := Some "[]";
          Save.quota := qu |}, false)).
    { unfold Save.start, Save.first_render, Save.save, Save.setItem.
      cbn [snd Save.available Save.quota].
      change (String.length (Save.stringify [])) with 2%nat.
      by rewrite bool_decide_true by exact Hq. }
    split; [|exact Hs].
    unfold Save.first_render, Save.getItem, Load.try_block.
    cbn [fst Save.available Save.content].
    destruct Hc as [->|[->|(s & -> & Hp)]]; [by right|by right|].
    rewrite Hp. destruct (Js.truthy s); [by left|by right].
  - intros ts -> -> Hq.
    pose proof (stringify_length ts) as Hl.
    unfold Save.start, Save.first_render, Save.save, Save.setItem,
      Save.getItem, Load.try_block.
    cbn [fst snd Save.available Save.content Save.quota].
    change (String.length (Save.stringify [])) with 2%nat.
    rewrite stringify_truthy, parse_stringify.
    rewrite (bool_decide_true (2 ≤ qu)%nat) by lia.
    cbn [andb fst snd Save.available Save.content Save.quota].
    rewrite bool_decide_true by exact Hq.
    cbn [andb fst snd orb]. repeat split.
  - intros loadedTasks ->.
    unfold Save.start, Save.first_render, Save.save, Save.setItem.
    cbn [fst snd Save.available andb].
    destruct loadedTasks; reflexivity.
Qed.

(** A slot with text that does not parse, and a slot with the text of the
    sample list. *)
Lemma X16_start_storage_witness :
  let broken := {| Save.available := true; Save.content := Some "[{";
                   Save.quota := 5000 |} in
  let saved := {| Save.available := true;
                  Save.content := Some (Save.stringify [Store.sample_task]);
                  Save.quota := 5000 |} in
  (2 ≤ Save.quota broken)%nat ∧ Json.parse "[{" = None ∧
  Save.content (fst (Save.start None broken)) = Some "[]" ∧
  (String.length (Save.stringify [Store.sample_task]) ≤ Save.quota saved)%nat ∧
  Save.start (Some [Store.sample_task]) saved = (saved, false).
Proof.
  intros broken saved.
  assert (Hq : (2 ≤ Save.quota broken)%nat) by (cbn; lia).
  assert (Hp : Json.parse "[{" = None) by reflexivity.
  assert (Hl : (String.length (Save.stringify [Store.sample_task])
                ≤ Save.quota saved)%nat).
  { apply (bool_decide_unpack _). vm_compute. exact I. }
  split; [exact Hq|]. split; [exact Hp|]. split; [|split; [exact Hl|]].
  - rewrite (proj2 (proj1 (X16_start_storage broken) eq_refl Hq
      (or_intror (or_intror (ex_intro _ "[{" (conj eq_refl Hp)))))).
    reflexivity.
  - exact (proj2 (proj2 (proj1 (proj2 (X16_start_storage saved))
      [Store.sample_task] eq_refl eq_refl Hl))).
Defined.

Section cn_facts.

Lemma join_cons_cons sep x y l :
  join sep (x :: y :: l) = x +:+ sep +:+ join sep (y :: l).
Proof. reflexivity. Qed.

Lemma join_nonempty sep x l : x ≠ "" → join sep (x :: l) ≠ "".
Proof.
  intros Hx. destruct l as [|y l]; [exact Hx|].
  rewrite join_cons_cons. intros H.
  by apply string_app_eq_nil in H as [H _].
Qed.

Lemma cn_cons_falsy c l : Boolean c = false → cn (c :: l) = cn l.
Proof. intros H. unfold cn. cbn [omap list_omap]. by rewrite H. Qed.

Lemma cn_cons_truthy a l :
  a ≠ "" →
  cn (Some a :: l) =
    if bool_decide (cn l = "") then a else a +:+ " " +:+ cn l.
Proof.
  intros Ha. unfold cn. cbn [omap list_omap Boolean].
  rewrite (proj2 (truthy_true_iff a) Ha).
  set (f := λ class, if Boolean class then class else None).
  assert (Hall : Forall (λ s, s ≠ "") (omap f l)).
  { apply Forall_forall. intros s Hs.
    apply list_elem_of_omap in Hs as (c & _ & Hc).
    unfold f in Hc. destruct c as [s'|]; [|discriminate Hc].
    cbn [Boolean] in Hc. destruct (Js.truthy s') eqn:E; [|discriminate Hc].
    injection Hc as <-. by apply truthy_true_iff. }
  destruct (omap f l) as [|y L].
  - by rewrite bool_decide_true.
  - apply Forall_cons in Hall as [Hy _].
    rewrite bool_decide_false by (by apply join_nonempty).
    apply join_cons_cons.
Qed.

End cn_facts.

(** X17: [cn] skips the class names that are empty or missing, wherever
    they stand, puts one space between the others and none around them: a
    name that counts comes first as it is, followed by a space and the rest
    only if something of the rest counts; and the result is empty exactly
    when no name counts. *)
Theorem X17_cn_joins_truthy (l1 l2 : list (option string))
    (c : option string) (a : string) :
  (Boolean c = false → cn (l1 ++ c :: l2) = cn (l1 ++ l2)) ∧
  (a ≠ "" →
   cn (Some a :: l2) =
     if bool_decide (cn l2 = "") then a else a +:+ " " +:+ cn l2) ∧
  (cn l2 = "" ↔ ∀ x, x ∈ l2 → Boolean x = false).
Proof.
  split; [|split].
  - intros H. induction l1 as [|x l1 IH]; [by apply cn_cons_falsy|].
    cbn [app]. destruct x as [s|].
    + destruct (decide (s = "")) as [->|Hs].
      * by rewrite !cn_cons_falsy.
      * by rewrite !cn_cons_truthy, IH.
    + by rewrite !cn_cons_falsy.
  - apply cn_cons_truthy.
  - induction l2 as [|x l2 IH].
    + split; [|reflexivity]. intros _ x Hx. by apply elem_of_nil in Hx.
    + destruct (Boolean x) eqn:E.
      * destruct x as [s|]; [|discriminate E]. cbn [Boolean] in E.
        apply truthy_true_iff in E. rewrite cn_cons_truthy by exact E. split.
        -- intros H. exfalso. case_bool_decide; [contradiction|].
           by apply string_app_eq_nil in H as [H _].
        -- intros H. specialize (H (Some s) ltac:(left)).
           cbn [Boolean] in H. apply truthy_true_iff in E. congruence.
      * rewrite cn_cons_falsy by exact E. rewrite IH. split.
        -- intros H y Hy. apply elem_of_cons in Hy as [->|Hy]; auto.
        -- intros H y Hy. apply H. by right.
Qed.

Lemma X17_cn_joins_truthy_witness :
  Boolean None = false ∧
  cn ([Some "a"] ++ None :: [Some "b"]) = cn ([Some "a"] ++ [Some "b"]).
Proof.
  split; [reflexivity|].
  exact (proj1 (X17_cn_joins_truthy [Some "a"] [Some "b"] None "a") eq_refl).
Defined.

Lemma store_inv_page_handle e s :
  e ≠ App.Reload → Store.store_inv (App.index s) → App.enabled e s →
  Store.store_inv (App.index (App.handle e s)).
Proof.
  intros Hne Hinv Hen. destruct e as [e| |]; [|exact Hinv|congruence].
  assert (He : Store.enabled e (App.index s)).
  { destruct e; try exact I; exact (proj2 Hen). }
  assert (Hh : App.index (App.handle (App.User e) s) =
               Store.handle e (App.index s)) by (by destruct e).
  rewrite Hh. by apply store_inv_handle.
Qed.

(** X18: what the handlers of the page keep.  Take a state in which no two
    tasks share an identifier, every task has a non-empty identifier, a
    non-empty creation time and a title of which something is left after
    trimming, and a task that is being edited has these too and agrees on
    the creation time with every task of the list that carries its
    identifier.  The page with the empty list is such a state; a list
    installed from the storage need not be.  After every run of user
    actions and seconds from such a state, without a reload, the state is
    such a state again, provided each [uuidv4()] returns a non-empty
    identifier that no task carries and each [toISOString()] a non-empty
    text. *)
Theorem X18_session_invariant (s s' : App.state) (es : list App.event) :
  Store.store_inv (App.index s) →
  App.runs s es s' →
  App.Reload ∉ es →
  let st := App.index s' in
  Store.store_inv Store.initial ∧
  NoDup (Store.id <$> Store.tasks st) ∧
  (∀ t, t ∈ Store.tasks st →
     Store.id t ≠ "" ∧ Store.createdAt t ≠ "" ∧
     Js.trim (Store.title t) ≠ "") ∧
  (∀ t0, Store.editingTask st = Some t0 →
     Store.id t0 ≠ "" ∧ Store.createdAt t0 ≠ "" ∧
     Js.trim (Store.title t0) ≠ "" ∧
     ∀ x, x ∈ Store.tasks st → Store.id x = Store.id t0 →
       Store.createdAt x = Store.createdAt t0).
Proof.
  intros Hinv Hruns Hno st.
  split; [split; [constructor|split; [constructor|discriminate]]|].
  assert (H : Store.store_inv st).
  { unfold st. clear st. induction Hruns as [s|s e es s' Hen _ IH]; [exact Hinv|].
    apply IH.
    - apply store_inv_page_handle; [|exact Hinv|exact Hen].
      intros ->. apply Hno. apply list_elem_of_here.
    - intros Hin. apply Hno. by apply list_elem_of_further. }
  destruct H as (Hnd & Hwf & Hed).
  split; [exact Hnd|]. split.
  - intros t Ht. rewrite Forall_forall in Hwf. exact (Hwf t Ht).
  - intros t0 H0. destruct (Hed t0 H0) as [(H1 & H2 & H3) H4].
    repeat split; assumption.
Qed.

(** The test is started, the form opened and the sample task created. *)
Lemma X18_session_invariant_witness :
  let es := [App.User Store.StartTest; App.User Store.ClickAddTask;
             App.User (Store.Submit Store.sample_fields "u1"
                         "2024-01-01T00:00:00.000Z")] in
  let s' := foldl (λ s e, App.handle e s) App.initial es in
  Store.store_inv (App.index App.initial) ∧
  App.runs App.initial es s' ∧
  (App.Reload ∉ es) ∧
  Store.tasks (App.index s') = [Store.sample_task] ∧
  NoDup (Store.id <$> Store.tasks (App.index s')).
Proof.
  intros es s'.
  assert (Hinv : Store.store_inv (App.index App.initial)).
  { split; [constructor|split; [constructor|discriminate]]. }
  assert (Hruns : App.runs App.initial es s').
  { apply App.runs_cons; [reflexivity|].
    apply App.runs_cons; [by split|].
    apply App.runs_cons; [|apply App.runs_nil].
    split; [reflexivity|]. split; [reflexivity|].
    split; [discriminate|]. split; [discriminate|].
    split; [apply not_elem_of_nil|discriminate]. }
  assert (Hno : App.Reload ∉ es).
  { intros H. repeat (apply elem_of_cons in H as [H|H]; [discriminate H|]).
    by apply elem_of_nil in H. }
  split; [exact Hinv|]. split; [exact Hruns|]. split; [exact Hno|].
  split; [reflexivity|].
  exact (proj1 (proj2 (X18_session_invariant _ _ _ Hinv Hruns Hno))).
Defined.

(** X19: on the page the timer text always has the form MM:SS: in every
    state that the page can be in, the remaining time lies between zero and
    3600, and [formatTime] writes it as two digits for the minutes, a colon
    and two digits for the seconds. *)
Theorem X19_page_display (s : App.state) :
  App.reachable s →
  0 ≤ Timer.timeRemaining (App.timer s) ≤ 3600 ∧
  MMSS (Timer.timeRemaining (App.timer s))
       (formatTime (Timer.timeRemaining (App.timer s))) ∧
  String.length (formatTime (Timer.timeRemaining (App.timer s))) = 5%nat.
Proof.
  intros Hr. destruct (page_inv_reachable s Hr) as (_ & Ht & _).
  assert (Hn : 1 ≤ Timer.initialTime) by (unfold Timer.initialTime; lia).
  pose proof (countdown_inv_reachable _ _ Hn Ht) as Hc.
  set (r := Timer.timeRemaining (App.timer s)).
  assert (Hb : 0 ≤ r ≤ 3600).
  { unfold r, Timer.countdown_inv, Timer.initialTime in *.
    destruct (Timer.timerRef (App.timer s)).
    - destruct Hc as [(_ & _ & H)|(_ & _ & H)]; lia.
    - destruct Hc as (_ & _ & H). lia. }
  destruct (formatTime_parts r ltac:(lia)) as [E _].
  pose proof (Z.mod_pos_bound r 60 ltac:(lia)) as Hmod.
  assert (Hdiv : 0 ≤ r `div` 60 < 100).
  { split; [apply Z.div_pos; lia|]. apply Z.div_lt_upper_bound; lia. }
  split; [exact Hb|]. split.
  - exists (Js.padStart (Js.String_of (r `div` 60)) 2 "0"),
           (Js.padStart (Js.String_of (r `mod` 60)) 2 "0").
    split; [by apply two_digit_intro|].
    split; [apply two_digit_intro; lia|exact E].
  - rewrite E, !padStart_two_digits by lia. reflexivity.
Qed.

Lemma X19_page_display_witness :
  App.reachable App.initial ∧
  String.length (formatTime (Timer.timeRemaining (App.timer App.initial)))
    = 5%nat.
Proof.
  assert (Hr : App.reachable App.initial) by (exists []; constructor).
  split; [exact Hr|].
  exact (proj2 (proj2 (X19_page_display App.initial Hr))).
Defined.

(** X20: a task that is deleted while its edit form is open stays deleted:
    submitting the form afterwards changes no task of the list, provided
    the task's identifier is not empty. *)
Theorem X20_delete_while_editing (t : Store.Task) (f : Store.Fields)
    (uuid now : string) (st : Store.Index) :
  Store.id t ≠ "" →
  let st1 := Store.handleDeleteTask t (Store.handleEditTask t st) in
  let st2 := Store.handle (Store.Submit f uuid now) st1 in
  Store.editingTask st1 = Some t ∧
  Store.tasks st2 = Store.tasks st1 ∧
  (∀ x, x ∈ Store.tasks st2 → Store.id x ≠ Store.id t).
Proof.
  intros Hi st1 st2.
  assert (Hgone : ∀ x, x ∈ Store.tasks st1 → Store.id x ≠ Store.id t).
  { intros x Hx. unfold st1 in Hx.
    cbn [Store.handleDeleteTask Store.handleEditTask Store.tasks] in Hx.
    by apply list_elem_of_filter in Hx as [Hx _]. }
  assert (Hsame : Store.tasks st2 = Store.tasks st1).
  { unfold st2. cbn [Store.handle].
    destruct (decide (Js.trim (Store.f_title f) = "")) as [Hb|Hv].
    { by rewrite submit_blank. }
    rewrite (submit_update f uuid now st1 t) by (assumption || reflexivity).
    cbn [fst Store.tasks].
    assert (He : Store.id (Store.newTask f (Some t) uuid now) = Store.id t).
    { unfold Store.newTask. cbn [Store.id from_option].
      by apply or_else_truthy. }
    rewrite He. rewrite <- (list_fmap_id (Store.tasks st1)) at 2.
    apply list_fmap_ext. intros i x Hx. cbn beta.
    rewrite bool_decide_false; [reflexivity|].
    apply Hgone. by eapply list_elem_of_lookup_2. }
  split; [reflexivity|]. split; [exact Hsame|]. by rewrite Hsame.
Qed.

Lemma X20_delete_while_editing_witness :
  Store.id Store.sample_task ≠ "" ∧
  Store.tasks
    (Store.handle (Store.Submit Store.sample_fields "u2" "n2")
       (Store.handleDeleteTask Store.sample_task
          (Store.handleEditTask Store.sample_task Store.sample_created))) =
  Store.tasks
    (Store.handleDeleteTask Store.sample_task
       (Store.handleEditTask Store.sample_task Store.sample_created)).
Proof.
  assert (Hi : Store.id Store.sample_task ≠ "") by discriminate.
  split; [exact Hi|].
  exact (proj1 (proj2 (X20_delete_while_editing Store.sample_task
    Store.sample_fields "u2" "n2" Store.sample_created Hi))).
Defined.

(** X21: the edit form keeps the [completed] that the task had when the
    form was opened.  If the task is toggled while the form is open and the
    form is then submitted with a valid title, the task is back to the
    [completed] it had before the toggle. *)
Theorem X21_toggle_while_editing (t : Store.Task) (f : Store.Fields)
    (uuid now : string) (st : Store.Index) (i : nat) :
  Store.id t ≠ "" → Store.createdAt t ≠ "" →
  Js.trim (Store.f_title f) ≠ "" →
  Store.tasks st !! i = Some t →
  let st1 := Store.handleToggleComplete t (Store.handleEditTask t st) in
  let st2 := Store.handle (Store.Submit f uuid now) st1 in
  (∃ x, Store.tasks st1 !! i = Some x ∧
        Store.completed x = negb (Store.completed t)) ∧
  (∃ y, Store.tasks st2 !! i = Some y ∧
        Store.completed y = Store.completed t ∧
        Store.id y = Store.id t ∧ Store.title y = Store.f_title f).
Proof.
  intros Hi Hc Hv Hl st1 st2.
  assert (H1 : Store.tasks st1 !! i = Some (Store.toggled t)).
  { unfold st1. rewrite (toggle_lookup t _ i t) by exact Hl.
    by rewrite bool_decide_true. }
  split; [by exists (Store.toggled t)|].
  unfold st2. cbn [Store.handle].
  rewrite (submit_update f uuid now st1 t) by (assumption || reflexivity).
  cbn [fst Store.tasks]. rewrite newTask_edit by assumption.
  rewrite list_lookup_fmap, H1. cbn [fmap option_fmap option_map].
  rewrite bool_decide_true by reflexivity.
  eexists. split; [reflexivity|]. repeat split.
Qed.

Lemma X21_toggle_while_editing_witness :
  Store.id Store.sample_task ≠ "" ∧
  Store.tasks Store.sample_created !! 0%nat = Some Store.sample_task ∧
  ∃ y, Store.tasks
         (Store.handle (Store.Submit Store.sample_fields "u2" "n2")
            (Store.handleToggleComplete Store.sample_task
               (Store.handleEditTask Store.sample_task Store.sample_created)))
         !! 0%nat = Some y ∧
       Store.completed y = Store.completed Store.sample_task.
Proof.
  assert (Hi : Store.id Store.sample_task ≠ "") by discriminate.
  assert (Hl : Store.tasks Store.sample_created !! 0%nat =
               Some Store.sample_task) by reflexivity.
  split; [exact Hi|]. split; [exact Hl|].
  destruct (proj2 (X21_toggle_while_editing Store.sample_task
    Store.sample_fields "u2" "n2" Store.sample_created 0 Hi
    ltac:(discriminate) ltac:(discriminate) Hl)) as (y & Hy & Hc & _).
  exists y. by split.
Defined.

(** X22: updating in place.  When the form is open for editing a task whose
    identifier and creation time are not empty, and it is submitted with a
    title of which something is left after trimming, nothing is reported
    as an error and the list keeps its length; every task that carries the
    identifier of the edited task is replaced, at its position, by the task
    with that identifier, the creation time and [completed] of the edited
    task and the fields of the form; every task with another identifier
    stays as it is; if no task carries the identifier, the list does not
    change; and where identifiers are pairwise distinct, only the position
    of the edited task changes. *)
Theorem X22_update_in_place (f : Store.Fields) (uuid now : string)
    (st : Store.Index) (t0 : Store.Task) :
  Store.editingTask st = Some t0 →
  Js.trim (Store.f_title f) ≠ "" →
  Store.id t0 ≠ "" →
  Store.createdAt t0 ≠ "" →
  let e :=
    {| Store.id := Store.id t0; Store.title := Store.f_title f;
       Store.description := Some (Store.f_description f);
       Store.priority := Store.f_priority f;
       Store.completed := Store.completed t0;
       Store.dueDate :=
         if Js.truthy (Store.f_dueDate f) then Some (Store.f_dueDate f)
         else None;
       Store.createdAt := Store.createdAt t0 |} in
  let st' := Store.handle (Store.Submit f uuid now) st in
  snd (Store.submit f uuid now st) = None ∧
  length (Store.tasks st') = length (Store.tasks st) ∧
  (∀ i x, Store.tasks st !! i = Some x → Store.id x = Store.id t0 →
     Store.tasks st' !! i = Some e ∧ Store.id e = Store.id x) ∧
  (∀ i x, Store.tasks st !! i = Some x → Store.id x ≠ Store.id t0 →
     Store.tasks st' !! i = Some x) ∧
  ((∀ x, x ∈ Store.tasks st → Store.id x ≠ Store.id t0) →
     Store.tasks st' = Store.tasks st) ∧
  (NoDup (Store.id <$> Store.tasks st) →
   ∀ i x, Store.tasks st !! i = Some x → Store.id x = Store.id t0 →
     Store.tasks st' = <[i := e]> (Store.tasks st)).
Proof.
  intros He Hv Hi Hc e st'.
  assert (Hs : Store.submit f uuid now st =
    ({| Store.tasks :=
          (λ task, if bool_decide (Store.id task = Store.id t0)
                   then e else task) <$> Store.tasks st;
        Store.showForm := false; Store.editingTask := None;
        Store.testStarted := Store.testStarted st;
        Store.searchQuery := Store.searchQuery st |}, None)).
  { rewrite (submit_update f uuid now st t0) by assumption.
    by rewrite newTask_edit. }
  assert (Ht : Store.tasks st' =
    (λ task, if bool_decide (Store.id task = Store.id t0) then e else task)
      <$> Store.tasks st).
  { unfold st'. cbn [Store.handle]. by rewrite Hs. }
  assert (Hhit : ∀ i x, Store.tasks st !! i = Some x →
    Store.id x = Store.id t0 → Store.tasks st' !! i = Some e).
  { intros i x Hx Hid. rewrite Ht, list_lookup_fmap, Hx. simpl.
    by rewrite bool_decide_true. }
  assert (Hmiss : ∀ i x, Store.tasks st !! i = Some x →
    Store.id x ≠ Store.id t0 → Store.tasks st' !! i = Some x).
  { intros i x Hx Hid. rewrite Ht, list_lookup_fmap, Hx. simpl.
    by rewrite bool_decide_false. }
  split; [by rewrite Hs|]. split; [by rewrite Ht, length_fmap|].
  split; [|split; [exact Hmiss|split]].
  - intros i x Hx Hid. split; [by eapply Hhit|symmetry; exact Hid].
  - intros Habs. rewrite Ht.
    rewrite <- (list_fmap_id (Store.tasks st)) at 2.
    apply list_fmap_ext. intros i x Hx. cbn beta.
    rewrite bool_decide_false; [reflexivity|].
    apply Habs. by eapply list_elem_of_lookup_2.
  - intros Hnd i x Hx Hid.
    apply list_eq. intros j. destruct (decide (j = i)) as [->|Hne].
    + rewrite list_lookup_insert_eq by (by eapply lookup_lt_Some).
      by eapply Hhit.
    + rewrite list_lookup_insert_ne by congruence.
      destruct (Store.tasks st !! j) as [y|] eqn:Hj.
      * apply (Hmiss j y Hj). intros Hy. apply Hne.
        apply (NoDup_lookup (Store.id <$> Store.tasks st) j i (Store.id t0));
          [assumption|..]; rewrite list_lookup_fmap;
          [rewrite Hj, <- Hy|rewrite Hx, <- Hid]; reflexivity.
      * rewrite Ht, list_lookup_fmap, Hj. reflexivity.
Qed.

Lemma X22_update_in_place_witness :
  let f :=
    {| Store.f_title := "Buy oat milk"; Store.f_description := "";
       Store.f_priority := Store.low; Store.f_dueDate := "2024-02-01" |} in
  Store.editingTask Store.sample_editing = Some Store.sample_task ∧
  Js.trim (Store.f_title f) ≠ "" ∧
  Store.id Store.sample_task ≠ "" ∧
  Store.createdAt Store.sample_task ≠ "" ∧
  (Store.tasks Store.sample_editing !! 0%nat = Some Store.sample_task →
   Store.tasks (Store.handle (Store.Submit f "u2" "n2") Store.sample_editing)
     !! 0%nat =
   Some {| Store.id := "u1"; Store.title := "Buy oat milk";
           Store.description := Some ""; Store.priority := Store.low;
           Store.completed := false; Store.dueDate := Some "2024-02-01";
           Store.createdAt := "2024-01-01T00:00:00.000Z" |}).
Proof.
  intros f.
  assert (Hv : Js.trim (Store.f_title f) ≠ "") by discriminate.
  assert (Hi : Store.id Store.sample_task ≠ "") by discriminate.
  assert (Hc : Store.createdAt Store.sample_task ≠ "") by discriminate.
  split; [reflexivity|]. split; [exact Hv|]. split; [exact Hi|].
  split; [exact Hc|]. intros H0.
  exact (proj1 (proj1 (proj2 (proj2
    (X22_update_in_place f "u2" "n2" Store.sample_editing Store.sample_task
       eq_refl Hv Hi Hc)))
    0%nat Store.sample_task H0 eq_refl)).
Defined.
